(** * VZCode sidebar search: keyboard navigation, jump and debounce

    A shallow embedding of [src/client/VZSidebar/Search.tsx].

    The component is a React function component: every render closes
    over one snapshot of the search state, and the handlers it installs
    talk to the rest of the application only by calling functions taken
    from [VZCodeContext] (state setters), from CodeMirror (the editor
    view) and from the DOM.  A handler is therefore modelled as a
    computation that reads the snapshot, records the calls it makes, in
    order, and either returns or throws. *)

From Stdlib Require Import ZArith Lia Ascii String.
From stdpp Require Import base tactics option list gmap strings pretty.

Local Open Scope Z_scope.

(** ** JavaScript strings

    A JavaScript string is a sequence of UTF-16 code units; [length]
    counts code units. *)

Abbreviation jsstring := (list N) (only parsing).

(** A string literal of the source, all of whose characters are ASCII. *)
Definition js (s : string) : jsstring :=
  (λ a, N_of_ascii a) <$> list_ascii_of_string s.

(** [WhiteSpace] and [LineTerminator] of ECMAScript, the code points
    [String.prototype.trim] strips. *)
Definition isWhiteSpace (c : N) : bool :=
  bool_decide (c ∈ [0x9; 0xA; 0xB; 0xC; 0xD; 0x20; 0xA0; 0x1680;
                    0x2028; 0x2029; 0x202F; 0x205F; 0x3000; 0xFEFF]%N)
  || (0x2000 <=? c)%N && (c <=? 0x200A)%N.

Fixpoint trimStart (s : jsstring) : jsstring :=
  match s with
  | c :: s' => if isWhiteSpace c then trimStart s' else s
  | [] => []
  end.

Definition trimEnd (s : jsstring) : jsstring :=
  reverse (trimStart (reverse s)).

Definition trim (s : jsstring) : jsstring := trimEnd (trimStart s).

(** [Number::toString] on an integer, as used by [file + "-" + line]. *)
Definition toString (n : Z) : jsstring := js (pretty n).

(** ** Numbers that may be [null]

    [focusedIndex] and [focusedChildIndex] are [number | null].  The
    handler applies [==], [===], [+] and [-] to them and uses them as
    array subscripts; these are the JavaScript meanings on integers and
    [null]. *)

Abbreviation nullable := (option Z) (only parsing).

(** [ToNumber]: [null] converts to [0]. *)
Definition toNumber (v : nullable) : Z := default 0 v.

(** [v === null]. *)
Definition isNull (v : nullable) : bool :=
  match v with None => true | Some _ => false end.

(** [v == n] for a number [n]: abstract equality never identifies
    [null] with a number. *)
Definition looseEqNum (v : nullable) (n : Z) : bool :=
  match v with Some x => bool_decide (x = n) | None => false end.

(** [v === n] for a number [n]. *)
Definition strictEqNum (v : nullable) (n : Z) : bool :=
  match v with Some x => bool_decide (x = n) | None => false end.

(** [a[v]]: [undefined] (here [None]) unless [v] is an index of [a];
    [a[null]] reads the property named ["null"], which an array lacks. *)
Definition subscript {A} (a : list A) (v : nullable) : option A :=
  match v with
  | Some i => if bool_decide (0 ≤ i) then a !! Z.to_nat i else None
  | None => None
  end.

(** ** Data model ([SearchFile], [SearchMatch] as Search.tsx uses them) *)

Abbreviation FileId := jsstring (only parsing).

Inductive SearchFileVisibility : Set := open | flattened | closed.

Global Instance SearchFileVisibility_eq_dec : EqDecision SearchFileVisibility.
Proof. solve_decision. Defined.

Record SearchMatch : Type := {
  line : Z;
  index : Z;
  text : jsstring;
}.

Record SearchFile : Type := {
  name : jsstring;
  matches : list SearchMatch;
  visibility : SearchFileVisibility;
}.

(** [results] is a JavaScript object used as a map from file id to
    [SearchFile].  The component only ever enumerates it with
    [Object.entries], so it is kept as the sequence of entries that
    enumeration yields. *)
Record Search : Type := {
  pattern : jsstring;
  results : list (FileId * SearchFile);
  focusedIndex : nullable;
  focusedChildIndex : nullable;
  focused : bool;
}.

(** ** Collaborators *)

(** A CodeMirror document, line by line; [doc.line(n)] is 1-based. *)
Record EditorView : Type := {
  doc : list jsstring;
}.

Inductive ScrollStrategy : Set := nearest | start | finish | center.

(** The transaction [jumpToPattern] dispatches. *)
Record TransactionSpec : Type := {
  anchor : Z;
  head : Z;
  scrollIntoView : bool;
  effects : Z * ScrollStrategy;   (* EditorView.scrollIntoView(pos, {y}) *)
}.

(** The layout numbers of a DOM element that the component reads. *)
Record Element : Type := {
  offsetTop : Z;
  clientHeight : Z;
  scrollTop : Z;
}.

(** [document.getElementById]. *)
Abbreviation Document := (jsstring → option Element) (only parsing).

(** Calls a handler makes to its surroundings. *)
Inductive Call : Type :=
| preventDefault
| setSearchFocusedIndex (focusedIndex childIndex : nullable)
| setSearchFileVisibility (fileId : FileId)
    (visibility : SearchFileVisibility) (name : option jsstring)
| setActiveFileId (fileId : FileId)
| dispatch (editor : EditorView) (tr : TransactionSpec)
| elementScrollIntoView (element : Element) (block : ScrollStrategy).

Inductive Exception : Set := TypeError | RangeError.

Inductive Completion (A : Type) : Type :=
| Normal (a : A)
| Throw (e : Exception).
Global Arguments Normal {A} a.
Global Arguments Throw {A} e.

(** A handler run: the calls made, oldest first, and how it ended. *)
Record Eff (A : Type) : Type := MkEff {
  calls : list Call;
  completion : Completion A;
}.
Global Arguments MkEff {A} calls completion.
Global Arguments calls {A} e.
Global Arguments completion {A} e.

Global Instance Eff_ret : MRet Eff := λ A a, MkEff [] (Normal a).

Global Instance Eff_bind : MBind Eff := λ A B k m,
  match completion m with
  | Normal a => MkEff (calls m ++ calls (k a)) (completion (k a))
  | Throw e => MkEff (calls m) (Throw e)
  end.

Definition call (c : Call) : Eff () := MkEff [c] (Normal ()).

Definition throw {A} (e : Exception) : Eff A := MkEff [] (Throw e).

(** Property access on a value that may be [undefined] or [null]. *)
Definition deref {A} (v : option A) : Eff A :=
  match v with Some a => mret a | None => throw TypeError end.

(** ** jumpToPattern *)

(** [doc.line(n).from]: CodeMirror raises a [RangeError] for a line
    number outside [1 .. doc.lines]; lines are separated by one line
    break each. *)
Fixpoint lineFrom (lines : list jsstring) (n : nat) : Z :=
  match n, lines with
  | S n', l :: lines' => Z.of_nat (length l) + 1 + lineFrom lines' n'
  | _, _ => 0
  end.

Definition docLineFrom (d : list jsstring) (n : Z) : Eff Z :=
  if bool_decide (1 ≤ n ≤ Z.of_nat (length d))
  then mret (lineFrom d (Z.to_nat (n - 1)))
  else throw RangeError.

(** [doc.toString()]: the lines joined by line breaks. *)
Fixpoint docText (lines : list jsstring) : jsstring :=
  match lines with
  | [] => []
  | l :: rest =>
      match rest with
      | [] => l
      | _ :: _ => l ++ 0xA%N :: docText rest
      end
  end.

(** [doc.length]: the number of code units of the text. *)
Definition docLength (lines : list jsstring) : Z :=
  Z.of_nat (length (docText lines)).

(** [editor.dispatch(tr)]: the call is made, and CodeMirror raises a
    [RangeError] from it when the selection of the transaction points
    outside of the document. *)
Definition editorDispatch (editor : EditorView) (tr : TransactionSpec)
    : Eff () :=
  call (dispatch editor tr);;
  if bool_decide (0 ≤ Z.min (anchor tr) (head tr)
                  ∧ Z.max (anchor tr) (head tr) ≤ docLength (doc editor))
  then mret ()
  else throw RangeError.

Definition jumpToPattern (editor : EditorView) (pattern : jsstring)
    (line index : Z) : Eff () :=
  from ← docLineFrom (doc editor) line;
  let position := from + index in
  editorDispatch editor {|
    anchor := position;
    head := position + Z.of_nat (length pattern);
    scrollIntoView := true;
    effects := (position, center);
  |}.

(** ** isResultElementWithinView *)

Definition isResultElementWithinView (container : Element)
    (element : option Element) : Eff bool :=
  let containerTop := scrollTop container in
  let containerBottom := containerTop + clientHeight container in
  el ← deref element;
  let elementTop := offsetTop el - offsetTop container in
  let elementBottom := elementTop + clientHeight el in
  mret ((elementTop >=? containerTop) && (elementBottom <=? containerBottom)).

(** ** The Search component *)

(** [event.key], as far as the [switch] of [handleKeyDown] tells keys
    apart: ['Tab'], ['ArrowUp'], ['ArrowDown'], ['ArrowLeft'],
    ['ArrowRight'], ['Enter'], [' '], and any other key. *)
Inductive Key : Type :=
| Tab | ArrowUp | ArrowDown | ArrowLeft | ArrowRight | Enter | Space
| OtherKey (key : string).

(** [Object.entries(results).filter(([_, file]) => file.visibility !== 'closed')] *)
Definition files (results : list (FileId * SearchFile))
    : list (FileId * SearchFile) :=
  filter (λ entry, visibility entry.2 ≠ closed) results.

Definition flattenResult (fileId : FileId) (file : SearchFile) : Eff () :=
  call (setSearchFileVisibility fileId
          (if bool_decide (visibility file = open) then flattened else open)
          (Some (name file))).

Definition closeResult (fileId : FileId) : Eff () :=
  call (setSearchFileVisibility fileId closed None).

Section Component.
(** What one render of the component closes over. *)
Variable search : Search.
Variable editorCache : gmap FileId EditorView.
Variable document : Document.

Let pattern := pattern search.
Let focusedIndex := focusedIndex search.
Let focusedChildIndex := focusedChildIndex search.
Let files := files (results search).

(** [files[i]], on which a property is then read. *)
Definition fileAt (i : nullable) : Eff (FileId * SearchFile) :=
  deref (subscript files i).

(** [files[i][1].matches[c]], on which a property is then read. *)
Definition matchAt (i c : nullable) : Eff SearchMatch :=
  entry ← fileAt i;
  deref (subscript (matches entry.2) c).

(** The [switch (event.key)] of [handleKeyDown]. *)
Definition keySwitch (key : Key) (matchingLines : Z) : Eff () :=
  match key with
  | Tab =>
      call (setSearchFocusedIndex focusedIndex None)
  | ArrowUp =>
      if looseEqNum focusedIndex 0 && isNull focusedChildIndex then
        mret ()
      else if isNull focusedChildIndex then
        previous ← fileAt (Some (toNumber focusedIndex - 1));
        let previousMatchingLines :=
          Z.of_nat (length (matches previous.2)) in
        if previousMatchingLines >? 0 then
          call (setSearchFocusedIndex (Some (toNumber focusedIndex - 1))
                  (Some (previousMatchingLines - 1)))
        else
          call (setSearchFocusedIndex (Some (toNumber focusedIndex - 1))
                  None)
      else if strictEqNum focusedChildIndex 0 then
        call (setSearchFocusedIndex focusedIndex None)
      else
        call (setSearchFocusedIndex focusedIndex
                (Some (toNumber focusedChildIndex - 1)))
  | ArrowDown =>
      if looseEqNum focusedIndex (Z.of_nat (length files) - 1)
         && looseEqNum focusedChildIndex (matchingLines - 1) then
        mret ()
      else if isNull focusedChildIndex && (matchingLines >? 0) then
        call (setSearchFocusedIndex focusedIndex (Some 0))
      else if looseEqNum focusedChildIndex (matchingLines - 1) then
        call (setSearchFocusedIndex (Some (toNumber focusedIndex + 1))
                None)
      else
        call (setSearchFocusedIndex focusedIndex
                (Some (toNumber focusedChildIndex + 1)))
  | ArrowLeft =>
      if negb (isNull focusedChildIndex) then
        call (setSearchFocusedIndex focusedIndex None)
      else
        entry ← fileAt focusedIndex;
        flattenResult entry.1 entry.2
  | ArrowRight =>
      entry ← fileAt focusedIndex;
      if bool_decide (visibility entry.2 ≠ open) then
        flattenResult entry.1 entry.2
      else if isNull focusedChildIndex then
        call (setSearchFocusedIndex focusedIndex (Some 0))
      else
        mret ()
  | Enter | Space =>
      entry ← fileAt focusedIndex;
      let fileId := entry.1 in
      call (setActiveFileId fileId);;
      if negb (isNull focusedChildIndex) then
        m ← matchAt focusedIndex focusedChildIndex;
        let line := line m in
        let index := index m in
        match editorCache !! fileId with
        | Some editor => jumpToPattern editor pattern line index
        | None => mret ()
        end
      else
        mret ()
  | OtherKey _ =>
      mret ()
  end.

(** The tail of [handleKeyDown]: keep the focused result in view.  It
    reads the focus of the render, not the one just requested. *)
Definition keepInView : Eff () :=
  entry ← fileAt focusedIndex;
  let file := entry.1 in
  match document (js "sidebar-view-container") with
  | Some container =>
      if isNull focusedChildIndex then
        let fileElement := document file in
        within ← isResultElementWithinView container fileElement;
        if negb within then
          element ← deref fileElement;
          call (elementScrollIntoView element center)
        else
          mret ()
      else
        m ← matchAt focusedIndex focusedChildIndex;
        let line := line m in
        let lineElement := document (file ++ js "-" ++ toString line) in
        within ← isResultElementWithinView container lineElement;
        if negb within then
          element ← deref lineElement;
          call (elementScrollIntoView element center)
        else
          mret ()
  | None =>
      mret ()
  end.

Definition handleKeyDown (key : Key) : Eff () :=
  call preventDefault;;
  entry ← fileAt focusedIndex;
  let matchingLines := Z.of_nat (length (matches entry.2)) in
  keySwitch key matchingLines;;
  keepInView.

End Component.

(** ** The search state behind the setters *)

Definition withVisibility (v : SearchFileVisibility) (file : SearchFile)
    : SearchFile :=
  {| name := name file; matches := matches file; visibility := v |}.

Definition withFocus (i c : nullable) (s : Search) : Search :=
  {| pattern := pattern s; results := results s;
     focusedIndex := i; focusedChildIndex := c; focused := focused s |}.

Definition withResults (r : list (FileId * SearchFile)) (s : Search)
    : Search :=
  {| pattern := pattern s; results := r;
     focusedIndex := focusedIndex s;
     focusedChildIndex := focusedChildIndex s; focused := focused s |}.

(** [results[fileId].visibility = v]: the entry keeps its place. *)
Definition writeVisibility (fileId : FileId) (v : SearchFileVisibility)
    (results : list (FileId * SearchFile)) : list (FileId * SearchFile) :=
  (λ entry : FileId * SearchFile,
     if bool_decide (entry.1 = fileId)
     then (entry.1, withVisibility v entry.2) else entry) <$> results.

(** The focus points at file [fileId]: [focusedIndex] is the position of
    that file among the visible files. *)
Definition focusOn (s : Search) (fileId : FileId) : bool :=
  match subscript (files (results s)) (focusedIndex s) with
  | Some entry => bool_decide (entry.1 = fileId)
  | None => false
  end.

(** Modelled from the spec: the state setters [setSearchFocusedIndex]
    and [setSearchFileVisibility] of [VZCodeContext], and the reducer
    behind them, are not among the sources.  Per sections 3, 4.2 and 8 of
    the specification, [setSearchFocusedIndex] stores the pair it is
    given; [setSearchFileVisibility] writes the visibility of one file
    and keeps its match records; writing [closed] to the file the focus
    points at moves the focus to the heading of the previous visible
    file, or to none when the file was the first.  The remaining calls
    do not touch the search state. *)
Definition reduce (s : Search) (c : Call) : Search :=
  match c with
  | setSearchFocusedIndex i child => withFocus i child s
  | setSearchFileVisibility fileId v _ =>
      let written := writeVisibility fileId v (results s) in
      if bool_decide (v = closed) && focusOn s fileId then
        if looseEqNum (focusedIndex s) 0
        then withFocus None None (withResults written s)
        else withFocus (Some (toNumber (focusedIndex s) - 1)) None
               (withResults written s)
      else withResults written s
  | _ => s
  end.

(** The search state once the calls of a handler run have taken
    effect.  A handler that throws has still made its earlier calls. *)
Definition after {A} (s : Search) (run : Eff A) : Search :=
  foldl reduce s (calls run).

(** The focus as the pair the specification talks about. *)
Definition focus (s : Search) : nullable * nullable :=
  (focusedIndex s, focusedChildIndex s).

(** [N] and [M(i)] of the specification. *)
Definition visibleCount (s : Search) : Z :=
  Z.of_nat (length (files (results s))).

Definition matchCount (s : Search) (i : Z) : Z :=
  match subscript (files (results s)) (Some i) with
  | Some entry => Z.of_nat (length (matches entry.2))
  | None => 0
  end.

(** One keyboard event handled on one render. *)
Definition keyDown (editorCache : gmap FileId EditorView)
    (document : Document) (key : Key) (s : Search) : Search :=
  after s (handleKeyDown s editorCache document key).

(** [pattern.trim().length >= 1] *)
Definition nonEmpty (pattern : jsstring) : bool :=
  bool_decide (1 ≤ length (trim pattern))%nat.

(** The condition under which the component renders the list of
    results, the element that carries [onKeyDown]:
    [Object.keys(results).length >= 1 && pattern.trim().length >= 1]. *)
Definition resultsShown (s : Search) : bool :=
  bool_decide (1 ≤ length (results s))%nat && nonEmpty (pattern s).

(** The invariant of section 3 of the specification: a child index is
    set only together with a file index, and lies within the matches of
    that file. *)
Definition focusInvariant (s : Search) : bool :=
  match focusedChildIndex s, focusedIndex s with
  | None, _ => true
  | Some c, Some i => bool_decide (0 ≤ c < matchCount s i)
  | Some _, None => false
  end.

(** The visibilities a handler run writes, in order. *)
Definition visibilityWrites {A} (run : Eff A)
    : list (FileId * SearchFileVisibility) :=
  omap (λ c, match c with
             | setSearchFileVisibility fileId v _ => Some (fileId, v)
             | _ => None
             end) (calls run).

(** The element of the focused node, under the ids the component gives
    to headings ([fileId]) and to lines ([fileId + "-" + line]). *)
Definition focusElement (s : Search) (document : Document)
    : option Element :=
  entry ← subscript (files (results s)) (focusedIndex s);
  match focusedChildIndex s with
  | None => document entry.1
  | Some c =>
      m ← subscript (matches entry.2) (Some c);
      document (entry.1 ++ js "-" ++ toString (line m))
  end.

(** ** The debounced search effect

    [useEffect(..., [pattern])] of the component, over the event loop.
    React runs the effect after the first render and after every render
    in which [pattern] differs from the previous one, and runs the
    cleanup function the previous run returned just before; it runs the
    last cleanup on unmount.  Each of these, and each timer expiry, is
    one step: JavaScript runs them to completion one after the other.
    The length of the delay (2000 ms) plays no role beyond the order in
    which pattern changes and expiries happen. *)

(** A pending [setTimeout]: its id and the [pattern] its callback closed
    over. *)
Record Timer : Type := {
  timerId : nat;
  timerPattern : jsstring;
}.

Record Hooks : Type := {
  isMounted : bool;             (* useState(false) *)
  isSearching : bool;           (* useState(false) *)
  inputRef : bool;              (* inputRef.current is an element *)
  searchPattern : jsstring;     (* search.pattern of the context *)
  timers : list Timer;          (* timers pending in the event loop *)
  nextTimer : nat;              (* the id setTimeout hands out next *)
  cleanup : option nat;         (* () => clearTimeout(delaySearch) *)
  searches : list jsstring;     (* setSearchResults runs, by pattern *)
}.

Definition initialHooks (pattern : jsstring) : Hooks :=
  {| isMounted := false; isSearching := false; inputRef := false;
     searchPattern := pattern; timers := []; nextTimer := 0%nat;
     cleanup := None; searches := [] |}.

(** Modelled from the spec: [setSearchResults] of [VZCodeContext] is not
    among the sources.  Per section 4.1 it invokes the match-producing
    collaborator once, with the latest pattern; the run is recorded with
    that pattern. *)
Definition setSearchResults (h : Hooks) : Hooks :=
  {| isMounted := isMounted h; isSearching := isSearching h;
     inputRef := inputRef h; searchPattern := searchPattern h;
     timers := timers h; nextTimer := nextTimer h; cleanup := cleanup h;
     searches := searches h ++ [searchPattern h] |}.

Definition setIsSearching (b : bool) (h : Hooks) : Hooks :=
  {| isMounted := isMounted h; isSearching := b;
     inputRef := inputRef h; searchPattern := searchPattern h;
     timers := timers h; nextTimer := nextTimer h; cleanup := cleanup h;
     searches := searches h |}.

Definition setIsMounted (b : bool) (h : Hooks) : Hooks :=
  {| isMounted := b; isSearching := isSearching h;
     inputRef := inputRef h; searchPattern := searchPattern h;
     timers := timers h; nextTimer := nextTimer h; cleanup := cleanup h;
     searches := searches h |}.

(** [setTimeout(callback, 2000)] with a callback closed over [pattern];
    the call returns the id [nextTimer h]. *)
Definition setTimeout (pattern : jsstring) (h : Hooks) : Hooks :=
  {| isMounted := isMounted h; isSearching := isSearching h;
     inputRef := inputRef h; searchPattern := searchPattern h;
     timers := timers h ++ [{| timerId := nextTimer h;
                               timerPattern := pattern |}];
     nextTimer := S (nextTimer h); cleanup := cleanup h;
     searches := searches h |}.

(** [clearTimeout(id)]: nothing happens when no such timer is pending. *)
Definition clearTimeout (id : nat) (h : Hooks) : Hooks :=
  {| isMounted := isMounted h; isSearching := isSearching h;
     inputRef := inputRef h; searchPattern := searchPattern h;
     timers := filter (λ t, timerId t ≠ id) (timers h);
     nextTimer := nextTimer h; cleanup := cleanup h;
     searches := searches h |}.

(** What the effect returned: the cleanup that clears timer [id], or
    nothing. *)
Definition withCleanup (c : option nat) (h : Hooks) : Hooks :=
  {| isMounted := isMounted h; isSearching := isSearching h;
     inputRef := inputRef h; searchPattern := searchPattern h;
     timers := timers h; nextTimer := nextTimer h; cleanup := c;
     searches := searches h |}.

Definition withInputRef (b : bool) (h : Hooks) : Hooks :=
  {| isMounted := isMounted h; isSearching := isSearching h;
     inputRef := b; searchPattern := searchPattern h;
     timers := timers h; nextTimer := nextTimer h; cleanup := cleanup h;
     searches := searches h |}.

(** [setSearch(pattern)] *)
Definition setSearch (pattern : jsstring) (h : Hooks) : Hooks :=
  {| isMounted := isMounted h; isSearching := isSearching h;
     inputRef := inputRef h; searchPattern := pattern;
     timers := timers h; nextTimer := nextTimer h; cleanup := cleanup h;
     searches := searches h |}.

(** The body of the timer callback, closed over [pattern]. *)
Definition onTimeout (pattern : jsstring) (h : Hooks) : Hooks :=
  if nonEmpty pattern && inputRef h
  then setIsSearching false (setSearchResults h)
  else h.

(** The body of the effect, on a render with pattern [searchPattern h]. *)
Definition effect (h : Hooks) : Hooks :=
  if isMounted h then
    let h1 := setIsSearching (nonEmpty (searchPattern h)) h in
    let delaySearch := nextTimer h1 in
    withCleanup (Some delaySearch) (setTimeout (searchPattern h) h1)
  else
    withCleanup None (setIsMounted true h).

(** The cleanup function of the previous effect run, if it returned
    one. *)
Definition runCleanup (h : Hooks) : Hooks :=
  match cleanup h with
  | Some id => clearTimeout id h
  | None => h
  end.

Inductive Event : Type :=
| Mount                          (* the component is rendered first *)
| SetSearch (pattern : jsstring) (* onChange: setSearch(value) *)
| Timeout (id : nat)             (* the delay of timer [id] has elapsed *)
| Unmount.

(** The input element exists exactly while the component is rendered;
    [inputRef] is used to tell whether it is.  A pattern set while the
    component is not rendered runs no effect, and neither does setting
    the pattern it already has. *)
Definition step (h : Hooks) (e : Event) : Hooks :=
  match e with
  | Mount =>
      effect (runCleanup (withInputRef true h))
  | SetSearch pattern =>
      if bool_decide (pattern = searchPattern h) || negb (inputRef h)
      then setSearch pattern h
      else effect (runCleanup (setSearch pattern h))
  | Timeout id =>
      match list_find (λ t, timerId t = id) (timers h) with
      | Some (_, t) => onTimeout (timerPattern t) (clearTimeout id h)
      | None => h
      end
  | Unmount =>
      withCleanup None
        (withInputRef false
           (setIsSearching false (setIsMounted false (runCleanup h))))
  end.

Definition run (h : Hooks) (events : list Event) : Hooks :=
  foldl step h events.

Definition reachable (h : Hooks) : Prop :=
  ∃ pattern events, h = run (initialHooks pattern) events.

(** What holds of the hooks at every moment: at most one timer is
    pending, it is the one the registered cleanup clears and its
    callback has closed over the current pattern; "searching" is only
    shown for a pattern that can be searched; nothing is pending while
    the component is not rendered. *)
Definition wf (h : Hooks) : Prop :=
  (timers h = [] ∨
   ∃ id, timers h = [{| timerId := id; timerPattern := searchPattern h |}]
         ∧ cleanup h = Some id)
  ∧ (isSearching h = true → nonEmpty (searchPattern h) = true)
  ∧ inputRef h = isMounted h
  ∧ (inputRef h = false → timers h = [] ∧ isSearching h = false).

(** ** Example data *)

Definition exampleMatch (l i : Z) : SearchMatch :=
  {| line := l; index := i; text := js "foo bar baz" |}.

(** [a.ts] with two matches and [b.ts] with none, as in section 8 of the
    specification. *)
Definition exampleA (v : SearchFileVisibility) : SearchFile :=
  {| name := js "a.ts"; matches := [exampleMatch 1 4; exampleMatch 3 5];
     visibility := v |}.

Definition exampleB (v : SearchFileVisibility) : SearchFile :=
  {| name := js "b.ts"; matches := []; visibility := v |}.

Definition exampleSearch (a b : SearchFileVisibility) (i c : nullable)
    : Search :=
  {| pattern := js "bar";
     results := [(js "17", exampleA a); (js "42", exampleB b)];
     focusedIndex := i; focusedChildIndex := c; focused := false |}.

(** Both files dismissed. *)
Definition exampleAllClosed : Search :=
  exampleSearch closed closed (Some 0) None.

(** The heading of [a.ts] focused. *)
Definition exampleOnA : Search := exampleSearch open open (Some 0) None.

(** The second match of [a.ts] focused. *)
Definition exampleOnMatch : Search :=
  exampleSearch open open (Some 0) (Some 1).

(** The heading of [b.ts], the last file, focused. *)
Definition exampleOnB : Search := exampleSearch open open (Some 1) None.

(** The heading of [a.ts] focused, the file flattened. *)
Definition exampleFlattened : Search :=
  exampleSearch flattened open (Some 0) None.

Definition exampleEditor : EditorView :=
  {| doc := [js "x"; js "yy"; js "foo bar baz"] |}.

Definition exampleCache : gmap FileId EditorView :=
  {[ js "17" := exampleEditor ]}.

Definition noDocument : Document := λ _, None.

(** A document in which the scroll container exists and no result is
    rendered. *)
Definition containerOnly : Document := λ id,
  if bool_decide (id = js "sidebar-view-container")
  then Some {| offsetTop := 0; clientHeight := 400; scrollTop := 0 |}
  else None.

(** The component just mounted, and after ["TODO"] has been typed. *)
Definition exampleHooks : Hooks := step (initialHooks []) Mount.

Definition exampleTyped : Hooks := step exampleHooks (SetSearch (js "TODO")).

(** ** The rendered result list

    The JSX of [Search]: the pieces a matching line is shown from, and
    the click handlers of headings and lines. *)

(** [String.prototype.substring] on integer arguments: both ends are
    clamped to the string, a missing end is the length, and the ends are
    swapped when they come in the wrong order. *)
Definition substring (s : jsstring) (start : Z) (finish : option Z)
    : jsstring :=
  let len := Z.of_nat (length s) in
  let finalStart := Z.min (Z.max start 0) len in
  let finalEnd := Z.min (Z.max (default len finish) 0) len in
  let from := Z.min finalStart finalEnd in
  let to := Z.max finalStart finalEnd in
  take (Z.to_nat (to - from)) (drop (Z.to_nat from) s).

(** [before], [hit] and [after] of a rendered line. *)
Module SearchLine.
Definition before (m : SearchMatch) : jsstring :=
  substring (text m) 0 (Some (index m)).

Definition hit (pattern : jsstring) (m : SearchMatch) : jsstring :=
  substring (text m) (index m)
    (Some (index m + Z.of_nat (length pattern))).

Definition after (pattern : jsstring) (m : SearchMatch) : jsstring :=
  substring (text m) (index m + Z.of_nat (length pattern)) None.
End SearchLine.

Section Clicks.
Variable search : Search.
Variable editorCache : gmap FileId EditorView.

(** [onClick] of a file heading. *)
Definition headingClick (fileId : FileId) (fileIndex : nat) : Eff () :=
  call (setActiveFileId fileId);;
  call (setSearchFocusedIndex (Some (Z.of_nat fileIndex)) None).

(** [onClick] of the text of a line.  No ancestor of a line has a click
    handler. *)
Definition lineClick (fileId : FileId) (fileIndex childIndex : nat)
    (m : SearchMatch) : Eff () :=
  call (setSearchFocusedIndex (Some (Z.of_nat fileIndex))
          (Some (Z.of_nat childIndex)));;
  match editorCache !! fileId with
  | Some editor => jumpToPattern editor (pattern search) (line m) (index m)
  | None => mret ()
  end.

(** The heading handlers of one render: [files.map(...)], when the
    list of results is rendered. *)
Definition headingClicks : list (Eff ()) :=
  if resultsShown search then
    imap (λ fileIndex entry, headingClick entry.1 fileIndex)
      (files (results search))
  else [].

(** The line handlers of one render:
    [file.visibility !== 'flattened' && file.matches.map(...)] for each
    visible file, when the list of results is rendered. *)
Definition lineClicks : list (Eff ()) :=
  if resultsShown search then
    mjoin (imap (λ fileIndex entry,
                   if bool_decide (visibility entry.2 ≠ flattened)
                   then imap (λ childIndex m,
                                lineClick entry.1 fileIndex childIndex m)
                          (matches entry.2)
                   else [])
             (files (results search)))
  else [].

End Clicks.

(** A document in which the heading of [a.ts] lies below the part of
    the container that is in view. *)
Definition exampleBelowView : Document := λ id,
  if bool_decide (id = js "sidebar-view-container")
  then Some {| offsetTop := 0; clientHeight := 400; scrollTop := 0 |}
  else if bool_decide (id = js "17")
  then Some {| offsetTop := 1000; clientHeight := 20; scrollTop := 0 |}
  else None.

(** ** The tab reducer

    [reducer(state, action)] of the tab state: the list of open tabs and
    the active file. *)

Module Tabs.

(** What [activeFileId] or an array read can hold: a file id, [null] or
    [undefined]. *)
Inductive Value : Type :=
| str (fileId : FileId)
| null
| undefined.

(** The state: the two fields the reducer reads and writes, and the
    other fields, which [...state] copies. *)
Record State (Rest : Type) : Type := MkState {
  tabList : list FileId;
  activeFileId : Value;
  rest : Rest;
}.
Global Arguments MkState {Rest} tabList activeFileId rest.
Global Arguments tabList {Rest} s.
Global Arguments activeFileId {Rest} s.
Global Arguments rest {Rest} s.

(** [action], by [action.type]; a type the [switch] has no case for is
    kept as it is. *)
Inductive Action : Type :=
| set_tab_list (tabs : list FileId)
| set_active_fileId (fileId : Value)
| open_tab (fileId : FileId)
| close_tab (fileIdToRemove : FileId)
| multi_close_tab (idsToDelete : list FileId)
| unknown (type : jsstring).

(** [a.findIndex((fileId) => fileId === id)] *)
Definition findIndex (a : list FileId) (id : FileId) : Z :=
  match list_find (λ fileId, fileId = id) a with
  | Some (i, _) => Z.of_nat i
  | None => -1
  end.

(** [a.slice(start, end)] on integers: a negative bound counts from the
    end, both are clamped to the array, a missing end is the length. *)
Definition slice (a : list FileId) (start : Z) (finish : option Z)
    : list FileId :=
  let len := Z.of_nat (length a) in
  let clamp (r : Z) := if r <? 0 then Z.max (len + r) 0 else Z.min r len in
  let k := clamp start in
  let final := clamp (default len finish) in
  take (Z.to_nat (final - k)) (drop (Z.to_nat k) a).

(** [a[i]] *)
Definition item (a : list FileId) (i : Z) : Value :=
  if bool_decide (0 ≤ i) then
    match a !! Z.to_nat i with
    | Some fileId => str fileId
    | None => undefined
    end
  else undefined.

(** [v === id] for a file id [id]. *)
Definition strictEq (v : Value) (id : FileId) : bool :=
  match v with
  | str fileId => bool_decide (fileId = id)
  | _ => false
  end.

(** The body of the [forEach] of ['multi_close_tab'], on the variables
    [newTabList] and [newActiveFileId]. *)
Definition multiCloseStep (vars : list FileId * Value) (id : FileId)
    : list FileId * Value :=
  let '(newTabList, newActiveFileId) := vars in
  let i := findIndex newTabList id in
  if negb (i =? -1) then
    let newTabList' := slice newTabList 0 (Some i)
                       ++ slice newTabList (i + 1) None in
    if strictEq newActiveFileId id then
      if Z.of_nat (length newTabList') >? 0 then
        (newTabList',
         if i =? 0 then item newTabList' i else item newTabList' (i - 1))
      else
        (newTabList', null)
    else (newTabList', newActiveFileId)
  else (newTabList, newActiveFileId).

(** The reducer returns the next state or throws an [Error] with a
    message. *)
Definition reducer {Rest} (state : State Rest) (action : Action)
    : State Rest + jsstring :=
  match action with
  | set_tab_list tabs =>
      inl {| tabList := tabs; activeFileId := activeFileId state;
             rest := rest state |}
  | set_active_fileId fileId =>
      inl {| tabList := tabList state; activeFileId := fileId;
             rest := rest state |}
  | open_tab fileId =>
      if negb (bool_decide (fileId ∈ tabList state)) then
        inl {| activeFileId := str fileId;
               tabList := tabList state ++ [fileId];
               rest := rest state |}
      else
        inl {| activeFileId := str fileId;
               tabList := tabList state;
               rest := rest state |}
  | close_tab fileIdToRemove =>
      let i := findIndex (tabList state) fileIdToRemove in
      if negb (i =? -1) then
        let newTabList := slice (tabList state) 0 (Some i)
                          ++ slice (tabList state) (i + 1) None in
        if strictEq (activeFileId state) fileIdToRemove then
          if Z.of_nat (length newTabList) >? 0 then
            inl {| activeFileId :=
                     if i =? 0 then item newTabList i
                     else item newTabList (i - 1);
                   tabList := newTabList;
                   rest := rest state |}
          else
            inl {| activeFileId := null;
                   tabList := newTabList;
                   rest := rest state |}
        else
          inl {| tabList := newTabList;
                 activeFileId := activeFileId state;
                 rest := rest state |}
      else
        inl {| tabList := tabList state;
               activeFileId := activeFileId state;
               rest := rest state |}
  | multi_close_tab idsToDelete =>
      let vars :=
        foldl multiCloseStep (tabList state, activeFileId state)
          idsToDelete in
      inl {| tabList := vars.1; activeFileId := vars.2;
             rest := rest state |}
  | unknown type =>
      inr (js "Unknown action: " ++ type)
  end.

(** Actions dispatched one after the other, up to the first that
    throws. *)
Definition reduceAll {Rest} (state : State Rest) (actions : list Action)
    : State Rest + jsstring :=
  foldl (λ acc action,
           match acc with
           | inl s => reducer s action
           | inr e => inr e
           end) (inl state) actions.

(** The active file is one of the open tabs, or there is none. *)
Definition activeIsOpen {Rest} (state : State Rest) : Prop :=
  match activeFileId state with
  | str fileId => fileId ∈ tabList state
  | null => True
  | undefined => False
  end.

(** The actions that open and close tabs. *)
Definition opensOrCloses (action : Action) : bool :=
  match action with
  | open_tab _ | close_tab _ | multi_close_tab _ => true
  | _ => false
  end.

(** The tab that becomes active when the active tab is closed: the one
    before it, the one after it when it was the first, none when it was
    the only one. *)
Definition neighbour (before after : list FileId) : Value :=
  match last before, after with
  | Some fileId, _ => str fileId
  | None, fileId :: _ => str fileId
  | None, [] => null
  end.

Definition exampleTabs : State () :=
  {| tabList := [js "a"; js "b"; js "c"]; activeFileId := str (js "b");
     rest := () |}.

End Tabs.

(** ** Interaction with code widgets

    [onInteract] of [src/client/CodeEditor/index.tsx]: the document is
    marked as being interacted with while interactions keep coming, and
    the mark is taken away 800 ms after the last one. *)

Module Interact.

(** The two functions [onInteract] hands to [submitOperation]:
    [(document) => ({ ...document, isInteracting: true })] and
    [({ isInteracting, ...newDocument }) => newDocument]. *)
Inductive Operation : Set := setIsInteracting | deleteIsInteracting.

(** The property [isInteracting] of a document: absent, or present with
    a value. *)
Definition applyOperation (op : Operation) (isInteracting : option bool)
    : option bool :=
  match op with
  | setIsInteracting => Some true
  | deleteIsInteracting => None
  end.

(** [interactTimeoutRef.current] is [null] or the id of a timer; the ids
    [setTimeout] gives are positive numbers, so that [!id] is false.
    [timers] are the timers pending in the event loop, [operations] the
    functions submitted so far, oldest first. *)
Record State : Type := {
  interactTimeoutRef : option positive;
  timers : list positive;
  nextTimer : positive;
  operations : list Operation;
}.

Definition initial : State :=
  {| interactTimeoutRef := None; timers := []; nextTimer := 1%positive;
     operations := [] |}.

Definition submitOperation (op : Operation) (s : State) : State :=
  {| interactTimeoutRef := interactTimeoutRef s; timers := timers s;
     nextTimer := nextTimer s; operations := operations s ++ [op] |}.

(** [clearTimeout(id)]: nothing happens when no such timer is pending. *)
Definition clearTimeout (id : positive) (s : State) : State :=
  {| interactTimeoutRef := interactTimeoutRef s;
     timers := filter (λ t, t ≠ id) (timers s);
     nextTimer := nextTimer s; operations := operations s |}.

(** [interactTimeoutRef.current = setTimeout(callback, 800)] *)
Definition setTimeoutRef (s : State) : State :=
  {| interactTimeoutRef := Some (nextTimer s);
     timers := timers s ++ [nextTimer s];
     nextTimer := Pos.succ (nextTimer s); operations := operations s |}.

Definition onInteract (s : State) : State :=
  let s1 :=
    match interactTimeoutRef s with
    | None => submitOperation setIsInteracting s
    | Some id => clearTimeout id s
    end in
  setTimeoutRef s1.

(** The callback of the timer. *)
Definition onTimeout (s : State) : State :=
  submitOperation deleteIsInteracting
    {| interactTimeoutRef := None; timers := timers s;
       nextTimer := nextTimer s; operations := operations s |}.

Inductive Event : Set :=
| Interaction            (* the editor calls [onInteract] *)
| Expiry (id : positive) (* the delay of timer [id] has elapsed *).

Definition step (s : State) (e : Event) : State :=
  match e with
  | Interaction => onInteract s
  | Expiry id =>
      if bool_decide (id ∈ timers s)
      then onTimeout (clearTimeout id s)
      else s
  end.

Definition run (s : State) (events : list Event) : State :=
  foldl step s events.

Definition reachable (s : State) : Prop :=
  ∃ events, s = run initial events.

(** [isInteracting] of a document after the operations, applied in
    order. *)
Definition isInteracting (ops : list Operation) (before : option bool)
    : option bool :=
  foldl (λ v op, applyOperation op v) before ops.

(** [k] rounds of marking and unmarking, and the mark of the round
    under way. *)
Definition rounds (k : nat) (pending : option positive) : list Operation :=
  mjoin (replicate k [setIsInteracting; deleteIsInteracting])
  ++ match pending with Some _ => [setIsInteracting] | None => [] end.

End Interact.

(** * Properties *)

(** ** The handler-run monad *)

Lemma subscript_nil {A} (v : nullable) : subscript (@nil A) v = None.
Proof. destruct v as [i|]; simpl; [case_bool_decide|]; done. Qed.

Lemma subscript_Some {A} (a : list A) (v : nullable) (x : A) :
  subscript a v = Some x ↔
  ∃ i, v = Some i ∧ 0 ≤ i ∧ a !! Z.to_nat i = Some x.
Proof.
  destruct v as [i|]; simpl.
  - case_bool_decide; split.
    + intros ?; eauto.
    + by intros (? & [= <-] & _ & ?).
    + done.
    + intros (? & [= <-] & ? & _); lia.
  - split; [done | by intros (? & ? & _)].
Qed.

Lemma calls_bind {A B} (m : Eff A) (k : A → Eff B) :
  calls (m ≫= k)
  = match completion m with
    | Normal a => calls m ++ calls (k a)
    | Throw _ => calls m
    end.
Proof. unfold mbind, Eff_bind. by destruct (completion m). Qed.

Lemma after_bind {A B} (s : Search) (m : Eff A) (k : A → Eff B) :
  after s (m ≫= k)
  = match completion m with
    | Normal a => after (after s m) (k a)
    | Throw _ => after s m
    end.
Proof.
  unfold after. rewrite calls_bind.
  destruct (completion m); [by rewrite foldl_app | done].
Qed.

Lemma after_ret {A} (s : Search) (a : A) : after s (mret a) = s.
Proof. done. Qed.

Lemma after_throw {A} (s : Search) (e : Exception) :
  after s (@throw A e) = s.
Proof. done. Qed.

Lemma after_call (s : Search) (c : Call) : after s (call c) = reduce s c.
Proof. done. Qed.

Lemma bind_deref_Some {A B} (a : A) (k : A → Eff B) :
  deref (Some a) ≫= k = k a.
Proof. unfold mbind, Eff_bind; simpl. by destruct (k a). Qed.

Lemma bind_deref_None {A B} (k : A → Eff B) :
  deref None ≫= k = throw TypeError.
Proof. done. Qed.

Lemma bind_ret {A B} (a : A) (k : A → Eff B) : mret a ≫= k = k a.
Proof. unfold mbind, Eff_bind; simpl. by destruct (k a). Qed.

Lemma bind_assoc {A B C} (m : Eff A) (f : A → Eff B) (g : B → Eff C) :
  (m ≫= f) ≫= g = m ≫= (λ a, f a ≫= g).
Proof.
  destruct m as [cs [a|e]]; unfold mbind, Eff_bind; simpl; [|done].
  destruct (f a) as [cs' [b|e']]; simpl; [|done].
  destruct (g b) as [cs'' ?]; simpl. by rewrite app_assoc.
Qed.

Lemma bind_ret_r {A} (m : Eff A) : m ≫= mret = m.
Proof.
  destruct m as [cs [a|e]]; unfold mbind, Eff_bind; simpl; [|done].
  by rewrite app_nil_r.
Qed.

Lemma after_call_bind {B} (s : Search) (c : Call) (m : Eff B) :
  after s (call c;; m) = after (reduce s c) m.
Proof. by rewrite after_bind. Qed.

Lemma completion_call_bind {B} (c : Call) (m : Eff B) :
  completion (call c;; m) = completion m.
Proof. done. Qed.

Lemma calls_call_bind {B} (c : Call) (m : Eff B) :
  calls (call c;; m) = c :: calls m.
Proof. done. Qed.

(** ** What a jump calls *)

Lemma editorDispatch_calls (editor : EditorView) (tr : TransactionSpec) :
  calls (editorDispatch editor tr) = [dispatch editor tr].
Proof.
  unfold editorDispatch. rewrite calls_call_bind. by case_bool_decide.
Qed.

Lemma jumpToPattern_calls (editor : EditorView) (pattern : jsstring)
    (line index : Z) (c : Call) :
  c ∈ calls (jumpToPattern editor pattern line index) →
  ∃ tr, c = dispatch editor tr.
Proof.
  unfold jumpToPattern, docLineFrom.
  case_bool_decide; [rewrite bind_ret | by intros ?%elem_of_nil].
  rewrite editorDispatch_calls. intros ->%list_elem_of_singleton. eauto.
Qed.

Lemma jumpToPattern_after (s : Search) (editor : EditorView)
    (pattern : jsstring) (line index : Z) :
  after s (jumpToPattern editor pattern line index) = s.
Proof.
  unfold jumpToPattern, docLineFrom.
  case_bool_decide; [rewrite bind_ret | done].
  unfold after. by rewrite editorDispatch_calls.
Qed.

(** ** The shape of a handler run *)

Lemma handleKeyDown_defined (s : Search)
    (editorCache : gmap FileId EditorView) (document : Document)
    (key : Key) (entry : FileId * SearchFile) :
  subscript (files (results s)) (focusedIndex s) = Some entry →
  handleKeyDown s editorCache document key
  = (call preventDefault;;
     keySwitch s editorCache key (Z.of_nat (length (matches entry.2)));;
     keepInView s document).
Proof.
  intros He. unfold handleKeyDown, fileAt. by rewrite He, bind_deref_Some.
Qed.

Lemma keepInView_inert (s s' : Search) (document : Document) :
  after s' (keepInView s document) = s'.
Proof.
  unfold keepInView, fileAt, matchAt, isResultElementWithinView, fileAt.
  destruct (subscript _ _) as [entry|];
    [rewrite bind_deref_Some | by rewrite bind_deref_None].
  destruct (document (js "sidebar-view-container")) as [container|]; [|done].
  destruct (isNull _).
  - destruct (document entry.1) as [el|];
      [rewrite !bind_deref_Some, bind_ret | by rewrite !bind_deref_None].
    by destruct (negb _).
  - rewrite bind_deref_Some.
    destruct (subscript _ _) as [m|];
      [rewrite bind_deref_Some | by rewrite bind_deref_None].
    destruct (document _) as [el|];
      [rewrite !bind_deref_Some, bind_ret | by rewrite !bind_deref_None].
    by destruct (negb _).
Qed.

Lemma keepInView_calls (s : Search) (document : Document) (c : Call) :
  c ∈ calls (keepInView s document) →
  ∃ element, c = elementScrollIntoView element center.
Proof.
  unfold keepInView, fileAt, matchAt, isResultElementWithinView, fileAt.
  destruct (subscript _ _) as [entry|];
    [rewrite bind_deref_Some | by intros ?%elem_of_nil].
  destruct (document (js "sidebar-view-container")) as [container|];
    [|by intros ?%elem_of_nil].
  destruct (isNull _).
  - destruct (document entry.1) as [el|];
      [rewrite !bind_deref_Some, bind_ret | by intros ?%elem_of_nil].
    destruct (negb _); [|by intros ?%elem_of_nil].
    intros ->%list_elem_of_singleton. eauto.
  - rewrite bind_deref_Some.
    destruct (subscript _ _) as [m|];
      [rewrite bind_deref_Some | by intros ?%elem_of_nil].
    destruct (document _) as [el|];
      [rewrite !bind_deref_Some, bind_ret | by intros ?%elem_of_nil].
    destruct (negb _); [|by intros ?%elem_of_nil].
    intros ->%list_elem_of_singleton. eauto.
Qed.

Lemma keepInView_returns (s : Search) (document : Document) :
  is_Some (focusElement s document) →
  completion (keepInView s document) = Normal ().
Proof.
  unfold focusElement, keepInView, fileAt, matchAt,
    isResultElementWithinView, fileAt.
  destruct (subscript _ _) as [entry|]; [|by intros [? [=]]].
  rewrite bind_deref_Some. cbn [mbind option_bind].
  destruct (document (js "sidebar-view-container")) as [container|]; [|done].
  destruct (focusedChildIndex s) as [c|]; cbn [isNull].
  - rewrite bind_deref_Some.
    destruct (subscript _ _) as [m|]; [|by intros [? [=]]].
    rewrite bind_deref_Some. cbn [mbind option_bind].
    intros [element ->].
    rewrite !bind_deref_Some, bind_ret. by destruct (negb _).
  - intros [element ->].
    rewrite !bind_deref_Some, bind_ret. by destruct (negb _).
Qed.

Lemma keyDown_switch (s : Search) (editorCache : gmap FileId EditorView)
    (document : Document) (key : Key) (entry : FileId * SearchFile) :
  subscript (files (results s)) (focusedIndex s) = Some entry →
  keyDown editorCache document key s
  = after s (keySwitch s editorCache key
               (Z.of_nat (length (matches entry.2)))).
Proof.
  intros Hentry. unfold keyDown, handleKeyDown, fileAt.
  rewrite Hentry, after_call_bind, bind_deref_Some, after_bind.
  destruct (completion _); by rewrite ?keepInView_inert.
Qed.

Lemma keyDown_undefined (s : Search) (editorCache : gmap FileId EditorView)
    (document : Document) (key : Key) :
  subscript (files (results s)) (focusedIndex s) = None →
  keyDown editorCache document key s = s.
Proof.
  intros Hentry. unfold keyDown, handleKeyDown, fileAt.
  by rewrite Hentry, after_call_bind, bind_deref_None.
Qed.

Lemma keySwitch_calls (s : Search) (editorCache : gmap FileId EditorView)
    (document : Document) (key : Key) (entry : FileId * SearchFile)
    (c : Call) :
  subscript (files (results s)) (focusedIndex s) = Some entry →
  c ∈ calls (keySwitch s editorCache key
               (Z.of_nat (length (matches entry.2)))) →
  c ∈ calls (handleKeyDown s editorCache document key).
Proof.
  intros He Hc. rewrite (handleKeyDown_defined _ _ _ _ entry He).
  rewrite calls_call_bind, calls_bind. right.
  destruct (completion _); [apply elem_of_app; by left | done].
Qed.

(** The synchronisation of the view reads the layout of the focused
    element without testing that it exists.  The lines of a flattened
    file are not rendered: with one of them focused, every key makes its
    calls and then throws. *)
Example keepInView_line_not_rendered :
  handleKeyDown (exampleSearch flattened open (Some 0) (Some 0)) ∅
    containerOnly Tab
  = MkEff [preventDefault; setSearchFocusedIndex (Some 0) None]
      (Throw TypeError).
Proof. reflexivity. Qed.

(** ** C1: no visible files *)

(** C1 (the code departs from it).  With no visible file, the very first
    statement of [handleKeyDown] reads [files[focusedIndex][1]] of
    [undefined]: for every key the handler throws a [TypeError] after
    [event.preventDefault()].  It makes no call that changes the search
    state, but it does fault. *)
Theorem handleKeyDown_no_visible_files_throws
    (search : Search) (editorCache : gmap FileId EditorView)
    (document : Document) (key : Key) :
  files (results search) = [] →
  handleKeyDown search editorCache document key
    = MkEff [preventDefault] (Throw TypeError)
  ∧ after search (handleKeyDown search editorCache document key) = search.
Proof.
  intros Hempty.
  assert (handleKeyDown search editorCache document key
          = MkEff [preventDefault] (Throw TypeError)) as ->; [|done].
  unfold handleKeyDown, fileAt. rewrite Hempty, subscript_nil. done.
Qed.

Lemma handleKeyDown_no_visible_files_witness :
  files (results exampleAllClosed) = []
  ∧ resultsShown exampleAllClosed = true
  ∧ handleKeyDown exampleAllClosed ∅ noDocument ArrowDown
    = MkEff [preventDefault] (Throw TypeError)
  ∧ after exampleAllClosed
      (handleKeyDown exampleAllClosed ∅ noDocument ArrowDown)
    = exampleAllClosed.
Proof.
  split; [reflexivity|]. split; [reflexivity|].
  apply (handleKeyDown_no_visible_files_throws exampleAllClosed ∅
           noDocument ArrowDown).
  reflexivity.
Defined.

(** ** Navigation *)

Lemma matchCount_pos (s : Search) (i : Z) :
  0 < matchCount s i →
  ∃ entry, subscript (files (results s)) (Some i) = Some entry
           ∧ matchCount s i = Z.of_nat (length (matches entry.2)).
Proof.
  unfold matchCount. destruct (subscript _ _) as [entry|]; [eauto | lia].
Qed.

Lemma visible_entry (s : Search) (i : Z) :
  0 ≤ i < visibleCount s →
  ∃ entry, subscript (files (results s)) (Some i) = Some entry.
Proof.
  unfold visibleCount. intros Hi. simpl.
  rewrite bool_decide_eq_true_2 by lia.
  apply lookup_lt_is_Some_2. lia.
Qed.

Lemma matchCount_entry (s : Search) (i : Z) (entry : FileId * SearchFile) :
  subscript (files (results s)) (Some i) = Some entry →
  matchCount s i = Z.of_nat (length (matches entry.2)).
Proof. unfold matchCount. by intros ->. Qed.

(** ** C10: ArrowDown then ArrowUp from a heading *)

(** C10.  From the heading of a visible file that has a match, ArrowDown
    enters the first match and ArrowUp returns to the heading: the focus
    is [(i, none)] again, and the whole search state is as before. *)
Theorem arrowDown_arrowUp_roundtrip
    (s : Search) (editorCache : gmap FileId EditorView)
    (document document' : Document) (i : Z) :
  focus s = (Some i, None) →
  0 < matchCount s i →
  focus (keyDown editorCache document' ArrowUp
           (keyDown editorCache document ArrowDown s)) = (Some i, None)
  ∧ focus (keyDown editorCache document ArrowDown s) = (Some i, Some 0)
  ∧ keyDown editorCache document' ArrowUp
      (keyDown editorCache document ArrowDown s) = s.
Proof.
  intros [= Hi Hc] Hpos.
  destruct (matchCount_pos _ _ Hpos) as (entry & Hentry & HM).
  assert (keyDown editorCache document ArrowDown s
          = withFocus (Some i) (Some 0) s) as ->.
  { rewrite (keyDown_switch _ _ _ _ entry) by by rewrite Hi.
    unfold keySwitch. rewrite Hi, Hc; simpl.
    rewrite andb_false_r.
    by rewrite (proj2 (Z.gtb_gt _ 0)) by lia. }
  assert (keyDown editorCache document' ArrowUp
            (withFocus (Some i) (Some 0) s) = s) as ->.
  { rewrite (keyDown_switch _ _ _ _ entry) by done.
    unfold keySwitch; simpl. rewrite andb_false_r.
    rewrite after_call; simpl. rewrite <- Hi, <- Hc. by destruct s. }
  unfold focus. by rewrite Hi, Hc.
Qed.

Lemma arrowDown_arrowUp_roundtrip_witness :
  focus exampleOnA = (Some 0, None)
  ∧ 0 < matchCount exampleOnA 0
  ∧ focus (keyDown ∅ noDocument ArrowUp
             (keyDown ∅ noDocument ArrowDown exampleOnA)) = (Some 0, None)
  ∧ focus (keyDown ∅ noDocument ArrowDown exampleOnA) = (Some 0, Some 0)
  ∧ keyDown ∅ noDocument ArrowUp (keyDown ∅ noDocument ArrowDown exampleOnA)
    = exampleOnA.
Proof.
  split; [reflexivity|]. split; [reflexivity|].
  apply (arrowDown_arrowUp_roundtrip exampleOnA ∅ noDocument noDocument 0);
    reflexivity.
Defined.

(** The scenario of section 8: three ArrowDown from the heading of
    [a.ts] visit its two matches and reach the heading of [b.ts]. *)
Example arrowDown_scenario :
  focus (keyDown ∅ noDocument ArrowDown exampleOnA) = (Some 0, Some 0)
  ∧ focus (keyDown ∅ noDocument ArrowDown
             (keyDown ∅ noDocument ArrowDown exampleOnA)) = (Some 0, Some 1)
  ∧ keyDown ∅ noDocument ArrowDown
      (keyDown ∅ noDocument ArrowDown
         (keyDown ∅ noDocument ArrowDown exampleOnA)) = exampleOnB.
Proof. repeat split. Qed.

(** ** C3: the boundaries *)

(** From [(0, none)], ArrowUp changes nothing. *)
Lemma arrowUp_top_boundary (s : Search)
    (editorCache : gmap FileId EditorView) (document : Document) :
  focus s = (Some 0, None) →
  keyDown editorCache document ArrowUp s = s.
Proof.
  intros [= Hi Hc].
  destruct (subscript (files (results s)) (focusedIndex s)) as [entry|] eqn:He;
    [|by apply keyDown_undefined].
  rewrite (keyDown_switch _ _ _ _ entry) by done.
  unfold keySwitch. by rewrite Hi, Hc.
Qed.

(** From the last match of the last visible file, ArrowDown changes
    nothing. *)
Lemma arrowDown_bottom_boundary (s : Search)
    (editorCache : gmap FileId EditorView) (document : Document) :
  focus s = (Some (visibleCount s - 1),
             Some (matchCount s (visibleCount s - 1) - 1)) →
  keyDown editorCache document ArrowDown s = s.
Proof.
  intros [= Hi Hc].
  destruct (subscript (files (results s)) (focusedIndex s)) as [entry|] eqn:He;
    [|by apply keyDown_undefined].
  rewrite (keyDown_switch _ _ _ _ entry) by done.
  rewrite Hi in He. apply matchCount_entry in He.
  unfold keySwitch. rewrite Hi, Hc, He; simpl.
  by rewrite !bool_decide_eq_true_2 by done.
Qed.

(** C3 (the code departs from it).  When the heading of the last visible
    file is focused and that file has no match, ArrowDown is not a
    no-op: [focusedChildIndex == matchingLines - 1] compares [null] with
    [-1], the boundary test fails, and the handler requests the child
    index [null + 1], that is [1], in a file without matches. *)
Theorem arrowDown_last_heading_without_matches
    (s : Search) (editorCache : gmap FileId EditorView)
    (document : Document) :
  0 < visibleCount s →
  focus s = (Some (visibleCount s - 1), None) →
  matchCount s (visibleCount s - 1) = 0 →
  setSearchFocusedIndex (Some (visibleCount s - 1)) (Some 1)
    ∈ calls (handleKeyDown s editorCache document ArrowDown)
  ∧ focus (keyDown editorCache document ArrowDown s)
    = (Some (visibleCount s - 1), Some 1)
  ∧ keyDown editorCache document ArrowDown s ≠ s.
Proof.
  intros HN [= Hi Hc] HM.
  destruct (visible_entry s (visibleCount s - 1)) as [entry He]; [lia|].
  rewrite (matchCount_entry _ _ _ He) in HM. rewrite <- Hi in He.
  assert (keySwitch s editorCache ArrowDown
            (Z.of_nat (length (matches entry.2)))
          = call (setSearchFocusedIndex (Some (visibleCount s - 1)) (Some 1)))
    as Hswitch.
  { unfold keySwitch. rewrite Hi, Hc, HM; simpl.
    by rewrite andb_false_r. }
  split; [|split].
  - apply (keySwitch_calls _ _ _ _ entry _ He). rewrite Hswitch.
    by apply list_elem_of_singleton.
  - by rewrite (keyDown_switch _ _ _ _ entry He), Hswitch.
  - rewrite (keyDown_switch _ _ _ _ entry He), Hswitch, after_call.
    intros Heq%(f_equal focusedChildIndex). simpl in Heq. congruence.
Qed.

Lemma arrowDown_last_heading_without_matches_witness :
  0 < visibleCount exampleOnB
  ∧ focus exampleOnB = (Some (visibleCount exampleOnB - 1), None)
  ∧ matchCount exampleOnB (visibleCount exampleOnB - 1) = 0
  ∧ setSearchFocusedIndex (Some 1) (Some 1)
      ∈ calls (handleKeyDown exampleOnB ∅ noDocument ArrowDown)
  ∧ focus (keyDown ∅ noDocument ArrowDown exampleOnB) = (Some 1, Some 1)
  ∧ keyDown ∅ noDocument ArrowDown exampleOnB ≠ exampleOnB.
Proof.
  split; [reflexivity|]. split; [reflexivity|]. split; [reflexivity|].
  apply (arrowDown_last_heading_without_matches exampleOnB ∅ noDocument);
    reflexivity.
Defined.

(** ** C2: the focus invariant *)

(** C2 (the code departs from it).  ArrowRight on the heading of an open
    file that has no match requests child index [0] without looking at
    the number of matches: the invariant holds before the key and fails
    after it. *)
Theorem arrowRight_open_heading_without_matches
    (s : Search) (editorCache : gmap FileId EditorView)
    (document : Document) (i : Z) (entry : FileId * SearchFile) :
  focus s = (Some i, None) →
  subscript (files (results s)) (Some i) = Some entry →
  visibility entry.2 = open →
  matches entry.2 = [] →
  focusInvariant s = true
  ∧ setSearchFocusedIndex (Some i) (Some 0)
      ∈ calls (handleKeyDown s editorCache document ArrowRight)
  ∧ focus (keyDown editorCache document ArrowRight s) = (Some i, Some 0)
  ∧ matchCount (keyDown editorCache document ArrowRight s) i = 0
  ∧ focusInvariant (keyDown editorCache document ArrowRight s) = false.
Proof.
  intros [= Hi Hc] He Hopen Hnone. rewrite <- Hi in He.
  assert (keySwitch s editorCache ArrowRight
            (Z.of_nat (length (matches entry.2)))
          = call (setSearchFocusedIndex (Some i) (Some 0))) as Hswitch.
  { unfold keySwitch, fileAt. rewrite Hc, He, bind_deref_Some, Hi.
    by rewrite bool_decide_eq_false_2 by (rewrite Hopen; tauto). }
  assert (keyDown editorCache document ArrowRight s
          = withFocus (Some i) (Some 0) s) as ->
    by by rewrite (keyDown_switch _ _ _ _ entry He), Hswitch.
  assert (matchCount (withFocus (Some i) (Some 0) s) i = 0) as HM.
  { rewrite Hi in He. unfold matchCount; simpl. simpl in He.
    by rewrite He, Hnone. }
  split_and!; [| |done|done|].
  - unfold focusInvariant. by rewrite Hc.
  - apply (keySwitch_calls _ _ _ _ entry _ He). rewrite Hswitch.
    by apply list_elem_of_singleton.
  - unfold focusInvariant; simpl. rewrite HM.
    by apply bool_decide_eq_false_2; lia.
Qed.

Lemma arrowRight_open_heading_without_matches_witness :
  focus exampleOnB = (Some 1, None)
  ∧ subscript (files (results exampleOnB)) (Some 1)
    = Some (js "42", exampleB open)
  ∧ visibility (exampleB open) = open
  ∧ matches (exampleB open) = []
  ∧ focusInvariant exampleOnB = true
  ∧ setSearchFocusedIndex (Some 1) (Some 0)
      ∈ calls (handleKeyDown exampleOnB ∅ noDocument ArrowRight)
  ∧ focus (keyDown ∅ noDocument ArrowRight exampleOnB) = (Some 1, Some 0)
  ∧ matchCount (keyDown ∅ noDocument ArrowRight exampleOnB) 1 = 0
  ∧ focusInvariant (keyDown ∅ noDocument ArrowRight exampleOnB) = false.
Proof.
  split; [reflexivity|]. split; [reflexivity|]. split; [reflexivity|].
  split; [reflexivity|].
  apply (arrowRight_open_heading_without_matches exampleOnB ∅ noDocument 1
           (js "42", exampleB open)); reflexivity.
Defined.

(** ** Where the focus invariant is kept *)

Lemma files_writeVisibility_visible (fileId : FileId)
    (v : SearchFileVisibility) (results : list (FileId * SearchFile)) :
  v ≠ closed →
  (∀ entry, entry ∈ results → entry.1 = fileId →
            visibility entry.2 ≠ closed) →
  files (writeVisibility fileId v results)
  = writeVisibility fileId v (files results).
Proof.
  intros Hv. unfold files, writeVisibility.
  induction results as [|entry results IH]; intros Hvisible; [done|].
  assert (∀ e, e ∈ results → e.1 = fileId → visibility e.2 ≠ closed)
    as Hrest by (intros e He; apply Hvisible; by right).
  specialize (IH Hrest).
  rewrite fmap_cons. case_bool_decide as Hid.
  - rewrite filter_cons_True by done. rewrite IH.
    rewrite (filter_cons_True _ entry)
      by (apply Hvisible; [by left | done]).
    rewrite fmap_cons. by rewrite bool_decide_eq_true_2 by done.
  - rewrite !(filter_cons _ entry), IH. case_decide; [|done].
    rewrite fmap_cons. by rewrite bool_decide_eq_false_2 by done.
Qed.

Lemma NoDup_fst_eq (l : list (FileId * SearchFile))
    (e1 e2 : FileId * SearchFile) :
  NoDup l.*1 → e1 ∈ l → e2 ∈ l → e1.1 = e2.1 → e1 = e2.
Proof.
  induction l as [|e l IH]; [by intros _ ?%elem_of_nil|].
  rewrite fmap_cons. intros [Hnotin Hdup]%NoDup_cons.
  intros [->|H1]%elem_of_cons [->|H2]%elem_of_cons Heq; [done| | |by apply IH].
  - destruct Hnotin. rewrite Heq. by apply list_elem_of_fmap_2.
  - destruct Hnotin. rewrite <- Heq. by apply list_elem_of_fmap_2.
Qed.

Lemma matchCount_writeVisibility (s : Search) (i j : Z)
    (entry : FileId * SearchFile) (v : SearchFileVisibility) :
  NoDup (results s).*1 →
  subscript (files (results s)) (Some i) = Some entry →
  v ≠ closed →
  matchCount (withResults (writeVisibility entry.1 v (results s)) s) j
  = matchCount s j.
Proof.
  intros Hdup He Hv. unfold matchCount; simpl results.
  rewrite files_writeVisibility_visible; [|done|].
  - unfold writeVisibility, subscript. case_bool_decide; [|done].
    rewrite list_lookup_fmap.
    destruct (files (results s) !! Z.to_nat j) as [e|]; [|done]; simpl.
    by case_bool_decide.
  - intros e Hin Hid.
    apply subscript_Some in He as (i' & _ & _ & He).
    apply list_elem_of_lookup_2, list_elem_of_filter in He as [Hvis Hentry].
    by rewrite (NoDup_fst_eq _ e entry Hdup Hin Hentry Hid).
Qed.

Lemma reduce_visibility (s : Search) (fileId : FileId)
    (v : SearchFileVisibility) (name : option jsstring) :
  v ≠ closed →
  reduce s (setSearchFileVisibility fileId v name)
  = withResults (writeVisibility fileId v (results s)) s.
Proof. intros Hv; simpl. by rewrite bool_decide_eq_false_2. Qed.

Lemma activate_inert (s : Search) (editorCache : gmap FileId EditorView)
    (key : Key) (matchingLines : Z) :
  key = Enter ∨ key = Space →
  after s (keySwitch s editorCache key matchingLines) = s.
Proof.
  intros Hkey.
  assert (keySwitch s editorCache key matchingLines
          = keySwitch s editorCache Enter matchingLines) as ->
    by by destruct Hkey as [-> | ->].
  unfold keySwitch, matchAt, fileAt.
  destruct (subscript _ _) as [entry|];
    [rewrite !bind_deref_Some | by rewrite bind_deref_None].
  rewrite after_call_bind; simpl reduce.
  destruct (negb _); [|done].
  destruct (subscript _ _) as [m|];
    [rewrite bind_deref_Some | by rewrite bind_deref_None].
  destruct (editorCache !! entry.1) as [editor|]; [|done].
  apply jumpToPattern_after.
Qed.

(** The invariant of C2 is kept by every key as long as the focused
    file has a match: the two transitions that break it start on a
    heading of a file without matches. *)
Lemma focusInvariant_preserved
    (s : Search) (editorCache : gmap FileId EditorView)
    (document : Document) (key : Key) :
  NoDup (results s).*1 →
  (∀ entry, subscript (files (results s)) (focusedIndex s) = Some entry →
            matches entry.2 ≠ []) →
  focusInvariant s = true →
  focusInvariant (keyDown editorCache document key s) = true.
Proof.
  intros Hdup Hmatches Hinv.
  destruct (subscript (files (results s)) (focusedIndex s)) as [entry|] eqn:He;
    [|by rewrite keyDown_undefined].
  rewrite (keyDown_switch _ _ _ _ entry) by done.
  specialize (Hmatches entry eq_refl).
  assert (0 < Z.of_nat (length (matches entry.2))) as HM
    by (destruct (matches entry.2); [done | simpl; lia]).
  destruct (focusedIndex s) as [i|] eqn:Hi; [|done].
  pose proof (matchCount_entry _ _ _ He) as HMi.
  unfold focusInvariant in Hinv. rewrite Hi in Hinv.
  destruct key.
  - (* Tab *) by unfold keySwitch; rewrite after_call.
  - (* ArrowUp *)
    unfold keySwitch, fileAt. rewrite Hi.
    destruct (focusedChildIndex s) as [c|] eqn:Hc; cbn [isNull].
    + rewrite andb_false_r. apply bool_decide_eq_true in Hinv.
      unfold strictEqNum. case_bool_decide; rewrite after_call;
        unfold focusInvariant; simpl; [done|].
      change (matchCount (withFocus (Some i) (Some (c - 1)) s) i)
        with (matchCount s i).
      apply bool_decide_eq_true_2. lia.
    + rewrite andb_true_r. unfold looseEqNum.
      case_bool_decide; [by unfold focusInvariant; rewrite after_ret, Hc|].
      change (toNumber (Some i)) with i.
      destruct (subscript (files (results s)) (Some (i - 1)))
        as [previous|] eqn:Hprev;
        [rewrite bind_deref_Some | by rewrite bind_deref_None, after_throw;
                                     unfold focusInvariant; rewrite Hc].
      destruct (_ >? 0) eqn:Hpm; rewrite after_call;
        unfold focusInvariant; simpl; [|done].
      change (matchCount (withFocus _ _ s) (i - 1))
        with (matchCount s (i - 1)).
      rewrite (matchCount_entry _ _ _ Hprev).
      apply bool_decide_eq_true_2. lia.
  - (* ArrowDown *)
    unfold keySwitch. rewrite Hi.
    destruct (focusedChildIndex s) as [c|] eqn:Hc; cbn [isNull].
    + apply bool_decide_eq_true in Hinv. rewrite andb_false_l.
      destruct (_ && _);
        [by unfold focusInvariant; rewrite after_ret, Hi, Hc;
           apply bool_decide_eq_true_2|].
      unfold looseEqNum. case_bool_decide; rewrite after_call;
        unfold focusInvariant; simpl; [done|].
      change (matchCount (withFocus _ _ s) i) with (matchCount s i).
      apply bool_decide_eq_true_2. lia.
    + rewrite andb_false_r, andb_true_l.
      rewrite (proj2 (Z.gtb_gt _ 0)) by lia. rewrite after_call.
      unfold focusInvariant; simpl.
      change (matchCount (withFocus _ _ s) i) with (matchCount s i).
      apply bool_decide_eq_true_2. lia.
  - (* ArrowLeft *)
    unfold keySwitch, fileAt, flattenResult. rewrite Hi.
    destruct (focusedChildIndex s) as [c|] eqn:Hc; cbn [isNull negb].
    + by rewrite after_call.
    + rewrite He, bind_deref_Some, after_call.
      rewrite reduce_visibility by by case_bool_decide.
      unfold focusInvariant; simpl. by rewrite Hc.
  - (* ArrowRight *)
    unfold keySwitch, fileAt, flattenResult.
    rewrite Hi, He, bind_deref_Some.
    case_bool_decide as Hvis.
    + rewrite after_call.
      assert ((if bool_decide (visibility entry.2 = open)
               then flattened else open) = open) as ->
        by by rewrite bool_decide_eq_false_2.
      rewrite reduce_visibility by done.
      unfold focusInvariant; simpl.
      destruct (focusedChildIndex s) as [c|] eqn:Hc; [|done].
      rewrite Hi. by rewrite (matchCount_writeVisibility s i i entry).
    + destruct (focusedChildIndex s) as [c|] eqn:Hc; cbn [isNull].
      * rewrite after_ret. unfold focusInvariant. by rewrite Hi, Hc.
      * rewrite after_call. unfold focusInvariant; simpl.
        change (matchCount (withFocus _ _ s) i) with (matchCount s i).
        apply bool_decide_eq_true_2. lia.
  - (* Enter *)
    rewrite activate_inert by auto. unfold focusInvariant. by rewrite Hi.
  - (* Space *)
    rewrite activate_inert by auto. unfold focusInvariant. by rewrite Hi.
  - (* any other key *)
    unfold keySwitch. rewrite after_ret. unfold focusInvariant. by rewrite Hi.
Qed.

(** ** Visibility writes *)

Lemma visibilityWrites_bind {A B} (m : Eff A) (k : A → Eff B) :
  visibilityWrites (m ≫= k)
  = match completion m with
    | Normal a => visibilityWrites m ++ visibilityWrites (k a)
    | Throw _ => visibilityWrites m
    end.
Proof.
  unfold visibilityWrites. rewrite calls_bind.
  destruct (completion m); [by rewrite omap_app | done].
Qed.

Lemma keepInView_visibilityWrites (s : Search) (document : Document) :
  visibilityWrites (keepInView s document) = [].
Proof.
  unfold keepInView, fileAt, matchAt, isResultElementWithinView, fileAt.
  destruct (subscript _ _) as [entry|];
    [rewrite bind_deref_Some | by rewrite bind_deref_None].
  destruct (document (js "sidebar-view-container")) as [container|]; [|done].
  destruct (isNull _).
  - destruct (document entry.1) as [el|];
      [rewrite !bind_deref_Some, bind_ret | by rewrite !bind_deref_None].
    by destruct (negb _).
  - rewrite bind_deref_Some.
    destruct (subscript _ _) as [m|];
      [rewrite bind_deref_Some | by rewrite bind_deref_None].
    destruct (document _) as [el|];
      [rewrite !bind_deref_Some, bind_ret | by rewrite !bind_deref_None].
    by destruct (negb _).
Qed.

Lemma handleKeyDown_visibilityWrites (s : Search)
    (editorCache : gmap FileId EditorView) (document : Document)
    (key : Key) (entry : FileId * SearchFile) :
  subscript (files (results s)) (focusedIndex s) = Some entry →
  visibilityWrites (handleKeyDown s editorCache document key)
  = visibilityWrites (keySwitch s editorCache key
                        (Z.of_nat (length (matches entry.2)))).
Proof.
  intros He. unfold handleKeyDown, fileAt.
  rewrite He, visibilityWrites_bind. cbn [completion call app].
  change (visibilityWrites (call preventDefault)) with
    (@nil (FileId * SearchFileVisibility)).
  rewrite app_nil_l, bind_deref_Some, visibilityWrites_bind.
  destruct (completion _); [|done].
  by rewrite keepInView_visibilityWrites, app_nil_r.
Qed.

Lemma jumpToPattern_visibilityWrites (editor : EditorView)
    (pattern : jsstring) (line index : Z) :
  visibilityWrites (jumpToPattern editor pattern line index) = [].
Proof.
  unfold jumpToPattern, docLineFrom.
  case_bool_decide; [rewrite bind_ret | done].
  unfold visibilityWrites. by rewrite editorDispatch_calls.
Qed.

Lemma activate_visibilityWrites (s : Search)
    (editorCache : gmap FileId EditorView) :
  visibilityWrites
    (entry ← deref (subscript (files (results s)) (focusedIndex s));
     call (setActiveFileId entry.1);;
     if negb (isNull (focusedChildIndex s)) then
       m ← (entry0 ← deref (subscript (files (results s)) (focusedIndex s));
            deref (subscript (matches entry0.2) (focusedChildIndex s)));
       match editorCache !! entry.1 with
       | Some editor => jumpToPattern editor (pattern s) (line m) (index m)
       | None => mret ()
       end
     else mret ()) = [].
Proof.
  destruct (subscript _ _) as [entry|];
    [rewrite bind_deref_Some | by rewrite bind_deref_None].
  rewrite visibilityWrites_bind. cbn [completion call].
  change (visibilityWrites (call (setActiveFileId entry.1))) with
    (@nil (FileId * SearchFileVisibility)).
  rewrite app_nil_l. destruct (negb _); [|done].
  rewrite bind_deref_Some.
  destruct (subscript _ _) as [m|];
    [rewrite bind_deref_Some | by rewrite bind_deref_None].
  destruct (editorCache !! entry.1); [|done].
  apply jumpToPattern_visibilityWrites.
Qed.

Lemma keySwitch_visibilityWrites (s : Search)
    (editorCache : gmap FileId EditorView) (key : Key) (matchingLines : Z) :
  key ≠ ArrowLeft → key ≠ ArrowRight →
  visibilityWrites (keySwitch s editorCache key matchingLines) = [].
Proof.
  intros HL HR. unfold keySwitch, fileAt, matchAt, fileAt.
  destruct key; try done.
  - (* ArrowUp *)
    destruct (_ && _); [done|]. destruct (isNull _).
    + destruct (subscript _ _) as [previous|];
        [rewrite bind_deref_Some | by rewrite bind_deref_None].
      by destruct (_ >? 0).
    + by destruct (strictEqNum _ _).
  - (* ArrowDown *)
    destruct (_ && _); [done|]. destruct (_ && _); [done|].
    by destruct (looseEqNum _ _).
  - (* Enter *) apply activate_visibilityWrites.
  - (* Space *) apply activate_visibilityWrites.
Qed.

(** ** C8: ArrowLeft and visibility *)

(** C8 (as amended).  On a focused match ArrowLeft collapses the focus
    to the heading and writes no visibility; on the heading of an open
    file it writes [flattened] for that file.  No key other than
    ArrowLeft and ArrowRight writes a visibility; ArrowRight does, it
    writes [open] for a focused file that is not open. *)
Theorem arrowLeft_and_visibility
    (s : Search) (editorCache : gmap FileId EditorView)
    (document : Document) (i : Z) (entry : FileId * SearchFile) :
  focusedIndex s = Some i →
  subscript (files (results s)) (Some i) = Some entry →
  (∀ c, focusedChildIndex s = Some c →
     visibilityWrites (handleKeyDown s editorCache document ArrowLeft) = []
     ∧ keyDown editorCache document ArrowLeft s = withFocus (Some i) None s)
  ∧ (focusedChildIndex s = None → visibility entry.2 = open →
     visibilityWrites (handleKeyDown s editorCache document ArrowLeft)
       = [(entry.1, flattened)]
     ∧ keyDown editorCache document ArrowLeft s
       = reduce s (setSearchFileVisibility entry.1 flattened
                     (Some (name entry.2))))
  ∧ (∀ key, key ≠ ArrowLeft → key ≠ ArrowRight →
     visibilityWrites (handleKeyDown s editorCache document key) = [])
  ∧ visibilityWrites (handleKeyDown s editorCache document ArrowRight)
    = (if bool_decide (visibility entry.2 = open) then []
       else [(entry.1, open)]).
Proof.
  intros Hi He. rewrite <- Hi in He. split_and!.
  - intros c Hc.
    rewrite (handleKeyDown_visibilityWrites _ _ _ _ entry) by done.
    rewrite (keyDown_switch _ _ _ _ entry) by done.
    unfold keySwitch. by rewrite Hc, Hi.
  - intros Hc Hopen.
    rewrite (handleKeyDown_visibilityWrites _ _ _ _ entry) by done.
    rewrite (keyDown_switch _ _ _ _ entry) by done.
    unfold keySwitch, fileAt, flattenResult.
    rewrite Hc, He, bind_deref_Some; simpl.
    by rewrite bool_decide_eq_true_2 by done.
  - intros key HL HR.
    rewrite (handleKeyDown_visibilityWrites _ _ _ _ entry) by done.
    by apply keySwitch_visibilityWrites.
  - rewrite (handleKeyDown_visibilityWrites _ _ _ _ entry) by done.
    unfold keySwitch, fileAt, flattenResult. rewrite He, bind_deref_Some.
    destruct (visibility entry.2); simpl; [|done..].
    by destruct (isNull _).
Qed.

(** ArrowRight on the heading of a flattened file writes a visibility,
    and the file is open afterwards: ArrowLeft is not the only key with
    a visibility side effect. *)
Lemma arrowRight_writes_visibility :
  ArrowRight ≠ ArrowLeft
  ∧ visibilityWrites (handleKeyDown exampleFlattened ∅ noDocument ArrowRight)
    = [(js "17", open)]
  ∧ visibility <$> (snd <$> results exampleFlattened) = [flattened; open]
  ∧ visibility
      <$> (snd <$> results (keyDown ∅ noDocument ArrowRight exampleFlattened))
    = [open; open].
Proof. split; [discriminate|]. repeat split. Qed.

Lemma arrowLeft_and_visibility_witness :
  focusedIndex exampleOnA = Some 0
  ∧ subscript (files (results exampleOnA)) (Some 0)
    = Some (js "17", exampleA open)
  ∧ visibilityWrites (handleKeyDown exampleOnA ∅ noDocument ArrowLeft)
    = [(js "17", flattened)]
  ∧ visibilityWrites (handleKeyDown exampleOnA ∅ noDocument Enter) = []
  ∧ visibilityWrites (handleKeyDown exampleOnA ∅ noDocument ArrowRight) = [].
Proof.
  pose proof (arrowLeft_and_visibility exampleOnA ∅ noDocument 0
                (js "17", exampleA open) eq_refl eq_refl)
    as (_ & Hheading & Hother & Hright).
  split; [reflexivity|]. split; [reflexivity|]. split; [|split].
  - exact (proj1 (Hheading eq_refl eq_refl)).
  - apply Hother; discriminate.
  - exact Hright.
Defined.

(** ** C7: jumpToPattern *)

Lemma lineFrom_nonneg (d : list jsstring) (n : nat) : 0 ≤ lineFrom d n.
Proof.
  revert d; induction n as [|n IH]; intros [|l d]; simpl; try lia.
  specialize (IH d). lia.
Qed.

(** [lineFrom] is the offset at which the text of the line starts in
    the text of the document. *)
Lemma lineFrom_docText (d : list jsstring) (n : nat) (l : jsstring) :
  d !! n = Some l →
  take (length l) (drop (Z.to_nat (lineFrom d n)) (docText d)) = l.
Proof.
  revert n; induction d as [|a d IH]; intros n Hl; [done|].
  destruct n as [|n]; simpl in Hl.
  - injection Hl as ->. change (Z.to_nat (lineFrom (l :: d) 0)) with 0%nat.
    rewrite drop_0. destruct d as [|b d].
    + apply firstn_all.
    + change (docText (l :: b :: d)) with (l ++ 0xA%N :: docText (b :: d)).
      apply take_app_length.
  - destruct d as [|b d]; [done|].
    specialize (IH n Hl). pose proof (lineFrom_nonneg (b :: d) n).
    change (docText (a :: b :: d)) with (a ++ 0xA%N :: docText (b :: d)).
    change (lineFrom (a :: b :: d) (S n))
      with (Z.of_nat (length a) + 1 + lineFrom (b :: d) n).
    replace (Z.to_nat (Z.of_nat (length a) + 1 + lineFrom (b :: d) n))
      with (length a + S (Z.to_nat (lineFrom (b :: d) n)))%nat by lia.
    by rewrite drop_app_add.
Qed.

(** A line of the document ends within the document. *)
Lemma lineFrom_line_end (d : list jsstring) (n : nat) (l : jsstring) :
  d !! n = Some l →
  lineFrom d n + Z.of_nat (length l) ≤ docLength d.
Proof.
  unfold docLength.
  revert n; induction d as [|a d IH]; intros n Hl; [done|].
  destruct n as [|n]; simpl in Hl.
  - injection Hl as ->. change (lineFrom (l :: d) 0) with 0.
    destruct d as [|b d]; [simpl; lia|].
    change (docText (l :: b :: d)) with (l ++ 0xA%N :: docText (b :: d)).
    rewrite length_app. lia.
  - destruct d as [|b d]; [done|].
    specialize (IH n Hl).
    change (docText (a :: b :: d)) with (a ++ 0xA%N :: docText (b :: d)).
    change (lineFrom (a :: b :: d) (S n))
      with (Z.of_nat (length a) + 1 + lineFrom (b :: d) n).
    rewrite length_app. cbn [length]. lia.
Qed.

Lemma jumpToPattern_defined (editor : EditorView) (pattern : jsstring)
    (line index : Z) :
  1 ≤ line ≤ Z.of_nat (length (doc editor)) →
  jumpToPattern editor pattern line index
  = editorDispatch editor
      {| anchor := lineFrom (doc editor) (Z.to_nat (line - 1)) + index;
         head := lineFrom (doc editor) (Z.to_nat (line - 1)) + index
                 + Z.of_nat (length pattern);
         scrollIntoView := true;
         effects := (lineFrom (doc editor) (Z.to_nat (line - 1)) + index,
                     center) |}.
Proof.
  intros Hline. unfold jumpToPattern, docLineFrom.
  by rewrite bool_decide_eq_true_2, bind_ret by done.
Qed.

Lemma editorDispatch_inside (editor : EditorView) (tr : TransactionSpec) :
  0 ≤ anchor tr → anchor tr ≤ head tr → head tr ≤ docLength (doc editor) →
  editorDispatch editor tr = MkEff [dispatch editor tr] (Normal ()).
Proof.
  intros. unfold editorDispatch. by rewrite bool_decide_eq_true_2 by lia.
Qed.

Lemma editorDispatch_outside (editor : EditorView) (tr : TransactionSpec) :
  docLength (doc editor) < head tr →
  editorDispatch editor tr = MkEff [dispatch editor tr] (Throw RangeError).
Proof.
  intros. unfold editorDispatch. by rewrite bool_decide_eq_false_2 by lia.
Qed.

(** A jump to an occurrence that lies within a line of the document
    returns. *)
Lemma jumpToPattern_returns (editor : EditorView) (pattern : jsstring)
    (line index : Z) :
  1 ≤ line ≤ Z.of_nat (length (doc editor)) →
  0 ≤ index →
  lineFrom (doc editor) (Z.to_nat (line - 1)) + index
    + Z.of_nat (length pattern) ≤ docLength (doc editor) →
  completion (jumpToPattern editor pattern line index) = Normal ().
Proof.
  intros Hline Hindex Hend. rewrite jumpToPattern_defined by done.
  pose proof (lineFrom_nonneg (doc editor) (Z.to_nat (line - 1))).
  rewrite editorDispatch_inside; [done | simpl; lia..].
Qed.

(** C7.  For a line number [line] of the document, [jumpToPattern]
    dispatches one transaction: the selection runs from
    [start = doc.line(line).from + index] to [start + pattern.length],
    and the scroll effect targets [start] with [y: 'center'];
    [doc.line(line).from] is the offset in the text of the document at
    which the text of that line starts.  The jump returns when the
    selection lies within the document, as it does for an occurrence of
    the pattern within the line, and [dispatch] raises a [RangeError]
    when the selection ends beyond the document.  For line 3 with the
    text ["foo bar baz"], index 5 and pattern ["bar"] the selection runs
    over columns 5 to 8 of line 3. *)
Theorem jumpToPattern_selection
    (editor : EditorView) (pattern : jsstring) (line index : Z) :
  1 ≤ line ≤ Z.of_nat (length (doc editor)) →
  let start := lineFrom (doc editor) (Z.to_nat (line - 1)) + index in
  let tr := {| anchor := start;
               head := start + Z.of_nat (length pattern);
               scrollIntoView := true;
               effects := (start, center) |} in
  calls (jumpToPattern editor pattern line index) = [dispatch editor tr]
  ∧ (0 ≤ index →
     start + Z.of_nat (length pattern) ≤ docLength (doc editor) →
     jumpToPattern editor pattern line index
     = MkEff [dispatch editor tr] (Normal ()))
  ∧ (docLength (doc editor) < start + Z.of_nat (length pattern) →
     jumpToPattern editor pattern line index
     = MkEff [dispatch editor tr] (Throw RangeError))
  ∧ (∀ l, doc editor !! Z.to_nat (line - 1) = Some l →
     take (length l)
       (drop (Z.to_nat (lineFrom (doc editor) (Z.to_nat (line - 1))))
          (docText (doc editor))) = l
     ∧ (0 ≤ index →
        index + Z.of_nat (length pattern) ≤ Z.of_nat (length l) →
        jumpToPattern editor pattern line index
        = MkEff [dispatch editor tr] (Normal ())))
  ∧ (line = 3 → index = 5 → pattern = js "bar" →
     doc editor !! 2%nat = Some (js "foo bar baz") →
     jumpToPattern editor pattern line index
     = MkEff [dispatch editor
                {| anchor := lineFrom (doc editor) 2 + 5;
                   head := lineFrom (doc editor) 2 + 8;
                   scrollIntoView := true;
                   effects := (lineFrom (doc editor) 2 + 5, center) |}]
             (Normal ())).
Proof.
  intros Hline start tr.
  pose proof (lineFrom_nonneg (doc editor) (Z.to_nat (line - 1))) as Hfrom.
  assert (jumpToPattern editor pattern line index = editorDispatch editor tr)
    as Hjump by by apply jumpToPattern_defined.
  assert (∀ l, doc editor !! Z.to_nat (line - 1) = Some l →
               0 ≤ index →
               index + Z.of_nat (length pattern) ≤ Z.of_nat (length l) →
               jumpToPattern editor pattern line index
               = MkEff [dispatch editor tr] (Normal ())) as Hwithin.
  { intros l Hl Hindex Hend. rewrite Hjump.
    pose proof (lineFrom_line_end _ _ _ Hl).
    apply editorDispatch_inside; subst tr start; simpl; lia. }
  split_and!.
  - by rewrite Hjump, editorDispatch_calls.
  - intros Hindex Hend. rewrite Hjump.
    apply editorDispatch_inside; subst tr start; simpl; lia.
  - intros Hend. rewrite Hjump. by apply editorDispatch_outside.
  - intros l Hl. split; [by apply lineFrom_docText | by apply Hwithin].
  - intros -> -> -> Hl.
    rewrite (Hwithin (js "foo bar baz")); [|done | lia | by vm_compute].
    subst tr start. change (Z.to_nat (3 - 1)) with 2%nat.
    change (Z.of_nat (length (js "bar"))) with 3.
    do 3 f_equal. f_equal. lia.
Qed.

Lemma jumpToPattern_selection_witness :
  1 ≤ 3 ≤ Z.of_nat (length (doc exampleEditor))
  ∧ jumpToPattern exampleEditor (js "bar") 3 5
    = MkEff [dispatch exampleEditor
               {| anchor := 10; head := 13; scrollIntoView := true;
                  effects := (10, center) |}]
            (Normal ())
  ∧ jumpToPattern exampleEditor (js "bar") 3 20
    = MkEff [dispatch exampleEditor
               {| anchor := 25; head := 28; scrollIntoView := true;
                  effects := (25, center) |}]
            (Throw RangeError).
Proof.
  assert (1 ≤ 3 ≤ Z.of_nat (length (doc exampleEditor))) as Hline
    by (vm_compute; split; discriminate).
  split; [exact Hline|]. split.
  - exact (proj1 (proj2 (jumpToPattern_selection exampleEditor (js "bar")
                           3 5 Hline))
             ltac:(done) ltac:(by vm_compute)).
  - exact (proj1 (proj2 (proj2 (jumpToPattern_selection exampleEditor
                                  (js "bar") 3 20 Hline)))
             ltac:(by vm_compute)).
Defined.

(** ** C9: activation *)

(** C9.  Enter and Space always call [setActiveFileId] for the focused
    file.  Without an editor for that file in the cache, nothing else
    happens before the view is synchronised: no transaction is
    dispatched, the handler completes exactly as the synchronisation of
    the view does, and it returns when the focused node is in the
    document.  With an editor and a focused match, [jumpToPattern] is run
    on that editor with the pattern and the line and index of the
    match. *)
Theorem activate_and_jump
    (s : Search) (editorCache : gmap FileId EditorView)
    (document : Document) (key : Key) (i : Z)
    (entry : FileId * SearchFile) :
  key = Enter ∨ key = Space →
  focusedIndex s = Some i →
  subscript (files (results s)) (Some i) = Some entry →
  (editorCache !! entry.1 = None →
   (∀ c, focusedChildIndex s = Some c →
         is_Some (subscript (matches entry.2) (Some c))) →
   handleKeyDown s editorCache document key
   = (call preventDefault;; call (setActiveFileId entry.1);;
      keepInView s document)
   ∧ completion (handleKeyDown s editorCache document key)
     = completion (keepInView s document)
   ∧ (is_Some (focusElement s document) →
      completion (handleKeyDown s editorCache document key) = Normal ())
   ∧ ∀ editor tr,
       dispatch editor tr ∉ calls (handleKeyDown s editorCache document key))
  ∧ (∀ c m editor,
       focusedChildIndex s = Some c →
       subscript (matches entry.2) (Some c) = Some m →
       editorCache !! entry.1 = Some editor →
       handleKeyDown s editorCache document key
       = (call preventDefault;; call (setActiveFileId entry.1);;
          jumpToPattern editor (pattern s) (line m) (index m);;
          keepInView s document)).
Proof.
  intros Hkey Hi He. rewrite <- Hi in He.
  rewrite (handleKeyDown_defined _ _ _ _ entry) by done.
  assert (keySwitch s editorCache key (Z.of_nat (length (matches entry.2)))
          = (call (setActiveFileId entry.1);;
             if negb (isNull (focusedChildIndex s)) then
               m ← deref (subscript (matches entry.2) (focusedChildIndex s));
               match editorCache !! entry.1 with
               | Some editor =>
                   jumpToPattern editor (pattern s) (line m) (index m)
               | None => mret ()
               end
             else mret ())) as ->.
  { unfold keySwitch, matchAt, fileAt.
    destruct Hkey as [-> | ->]; by rewrite He, !bind_deref_Some. }
  split.
  - intros Hcache Hvalid.
    assert ((call preventDefault;;
             (call (setActiveFileId entry.1);;
              if negb (isNull (focusedChildIndex s)) then
                m ← deref (subscript (matches entry.2) (focusedChildIndex s));
                match editorCache !! entry.1 with
                | Some editor =>
                    jumpToPattern editor (pattern s) (line m) (index m)
                | None => mret ()
                end
              else mret ());;
             keepInView s document)
            = (call preventDefault;; call (setActiveFileId entry.1);;
               keepInView s document)) as ->.
    { f_equal. rewrite bind_assoc. f_equal.
      destruct (focusedChildIndex s) as [c|] eqn:Hc; cbn [isNull negb].
      - destruct (Hvalid c eq_refl) as [m Hm]. rewrite Hm.
        by rewrite bind_deref_Some, Hcache, bind_ret.
      - by rewrite bind_ret. }
    split_and!; [done | | |].
    + by rewrite !completion_call_bind.
    + intros Helement. rewrite !completion_call_bind.
      by apply keepInView_returns.
    + intros editor tr Hin.
      assert (calls (call preventDefault;; call (setActiveFileId entry.1);;
                     keepInView s document)
              = preventDefault :: setActiveFileId entry.1
                  :: calls (keepInView s document)) as Hcalls.
      { by rewrite !calls_call_bind. }
      rewrite Hcalls in Hin.
      apply elem_of_cons in Hin as [|Hin]; [done|].
      apply elem_of_cons in Hin as [|Hin]; [done|].
      by apply keepInView_calls in Hin as [element ?].
  - intros c m editor Hc Hm Hcache. f_equal. rewrite bind_assoc.
    rewrite Hc; simpl. simpl in Hm.
    by rewrite Hm, bind_deref_Some, Hcache.
Qed.

Lemma activate_and_jump_witness :
  (Enter = Enter ∨ Enter = Space)
  ∧ focusedIndex exampleOnMatch = Some 0
  ∧ subscript (files (results exampleOnMatch)) (Some 0)
    = Some (js "17", exampleA open)
  ∧ handleKeyDown exampleOnMatch ∅ noDocument Enter
    = MkEff [preventDefault; setActiveFileId (js "17")] (Normal ())
  ∧ handleKeyDown exampleOnMatch exampleCache noDocument Enter
    = MkEff [preventDefault; setActiveFileId (js "17");
             dispatch exampleEditor
               {| anchor := 10; head := 13; scrollIntoView := true;
                  effects := (10, center) |}]
            (Normal ()).
Proof.
  pose proof (activate_and_jump exampleOnMatch ∅ noDocument Enter 0
                (js "17", exampleA open)
                (or_introl eq_refl) eq_refl eq_refl) as [Hnone _].
  pose proof (activate_and_jump exampleOnMatch exampleCache noDocument Enter 0
                (js "17", exampleA open)
                (or_introl eq_refl) eq_refl eq_refl) as [_ Hsome].
  split; [by left|]. split; [reflexivity|]. split; [reflexivity|]. split.
  - destruct Hnone as (-> & _); [reflexivity | | reflexivity].
    intros c [= <-]. by eexists.
  - by rewrite (Hsome 1 (exampleMatch 3 5) exampleEditor
                  eq_refl eq_refl eq_refl).
Defined.

(** ** C4: closing a file *)

Lemma files_writeVisibility_closed (fileId : FileId)
    (results : list (FileId * SearchFile)) :
  files (writeVisibility fileId closed results)
  = filter (λ entry, entry.1 ≠ fileId) (files results).
Proof.
  unfold files, writeVisibility.
  induction results as [|entry results IH]; [done|].
  rewrite fmap_cons. case_bool_decide as Hid.
  - rewrite filter_cons_False by (simpl; tauto). rewrite IH.
    rewrite (filter_cons _ entry). case_decide; [|done].
    by rewrite filter_cons_False by tauto.
  - rewrite !(filter_cons _ entry), IH. case_decide; [|done].
    by rewrite filter_cons_True by done.
Qed.

Lemma files_NoDup (results : list (FileId * SearchFile)) :
  NoDup results.*1 → NoDup (files results).*1.
Proof.
  unfold files. induction results as [|entry results IH]; [done|].
  rewrite fmap_cons. intros [Hnotin Hdup]%NoDup_cons.
  rewrite filter_cons. case_decide; [|by apply IH].
  rewrite fmap_cons. apply NoDup_cons. split; [|by apply IH].
  intros (entry' & Heq & Hin)%list_elem_of_fmap. apply Hnotin.
  apply list_elem_of_fmap. exists entry'. split; [done|].
  by apply list_elem_of_filter in Hin as [_ ?].
Qed.

Lemma filter_other_prefix (l : list (FileId * SearchFile))
    (fileId : FileId) (file : SearchFile) (i j : nat) :
  NoDup l.*1 →
  l !! i = Some (fileId, file) →
  (j < i)%nat →
  filter (λ entry, entry.1 ≠ fileId) l !! j = l !! j.
Proof.
  revert i j. induction l as [|entry l IH]; intros i j Hdup Hi Hj; [done|].
  destruct i as [|i]; [lia|]. simpl in Hi.
  rewrite fmap_cons in Hdup. apply NoDup_cons in Hdup as [Hnotin Hdup].
  assert (entry.1 ≠ fileId) as Hne.
  { intros Heq. apply Hnotin. rewrite Heq.
    apply list_elem_of_fmap. exists (fileId, file).
    split; [done|]. by eapply list_elem_of_lookup_2. }
  rewrite filter_cons_True by done.
  destruct j as [|j]; [done|]. simpl. apply (IH i); [done..|lia].
Qed.

Lemma writeVisibility_retains (fileId : FileId) (v : SearchFileVisibility)
    (results : list (FileId * SearchFile)) :
  (λ entry, (entry.1, name entry.2, matches entry.2))
    <$> writeVisibility fileId v results
  = (λ entry, (entry.1, name entry.2, matches entry.2)) <$> results.
Proof.
  unfold writeVisibility. rewrite <- list_fmap_compose.
  apply list_fmap_ext. intros _ entry _; simpl. by case_bool_decide.
Qed.

(** C4.  [closeResult] writes [closed] for the file.  The file leaves
    the visible files, the other visible files stay, in their order;
    every entry of [results] keeps its id, name and match records; if
    the focus pointed at the file it moves to the heading of the
    previous visible file, or to none when the file was the first; a
    focus on another file is not touched. *)
Theorem closeResult_closes (s : Search) (fileId : FileId) :
  NoDup (results s).*1 →
  let s' := after s (closeResult fileId) in
  files (results s')
    = filter (λ entry, entry.1 ≠ fileId) (files (results s))
  ∧ (fileId ∉ (files (results s')).*1)
  ∧ (λ entry, (entry.1, name entry.2, matches entry.2)) <$> results s'
    = (λ entry, (entry.1, name entry.2, matches entry.2)) <$> results s
  ∧ (∀ i file,
       focusedIndex s = Some i →
       subscript (files (results s)) (Some i) = Some (fileId, file) →
       (i = 0 → focus s' = (None, None))
       ∧ (0 < i →
          focus s' = (Some (i - 1), None)
          ∧ subscript (files (results s')) (Some (i - 1))
            = subscript (files (results s)) (Some (i - 1))))
  ∧ (focusOn s fileId = false → focus s' = focus s).
Proof.
  intros Hdup s'.
  assert (results s' = writeVisibility fileId closed (results s)) as Hres.
  { subst s'. unfold closeResult. rewrite after_call; simpl.
    destruct (focusOn s fileId); [|done].
    by destruct (looseEqNum _ _). }
  assert (files (results s')
          = filter (λ entry, entry.1 ≠ fileId) (files (results s))) as Hfiles.
  { rewrite Hres. apply files_writeVisibility_closed. }
  split_and!.
  - done.
  - rewrite Hfiles. intros (entry & -> & Hin)%list_elem_of_fmap.
    by apply list_elem_of_filter in Hin as [? _].
  - rewrite Hres. apply writeVisibility_retains.
  - intros i file Hi He.
    assert (focusOn s fileId = true) as Hon.
    { unfold focusOn. rewrite Hi, He. by apply bool_decide_eq_true_2. }
    split.
    + intros ->. subst s'. unfold closeResult. rewrite after_call; simpl.
      by rewrite Hon, Hi.
    + intros Hpos. split.
      * subst s'. unfold closeResult. rewrite after_call; simpl.
        rewrite Hon, Hi; simpl.
        by rewrite bool_decide_eq_false_2 by lia.
      * rewrite Hfiles. apply subscript_Some in He as (i' & [= <-] & _ & He).
        simpl. rewrite bool_decide_eq_true_2 by lia.
        eapply filter_other_prefix; [by apply files_NoDup | done | lia].
  - intros Hoff. subst s'. unfold closeResult. rewrite after_call; simpl.
    by rewrite Hoff.
Qed.

Lemma closeResult_closes_witness :
  NoDup (results exampleOnB).*1
  ∧ files (results (after exampleOnB (closeResult (js "42"))))
    = [(js "17", exampleA open)]
  ∧ results (after exampleOnB (closeResult (js "42")))
    = [(js "17", exampleA open); (js "42", exampleB closed)]
  ∧ focus (after exampleOnB (closeResult (js "42"))) = (Some 0, None)
  ∧ focus (after exampleOnA (closeResult (js "17"))) = (None, None).
Proof.
  assert (NoDup (results exampleOnB).*1) as HdupB
    by (apply (bool_decide_unpack _); vm_compute; exact I).
  assert (NoDup (results exampleOnA).*1) as HdupA
    by (apply (bool_decide_unpack _); vm_compute; exact I).
  pose proof (closeResult_closes exampleOnB (js "42") HdupB)
    as (HfilesB & _ & _ & HfocusB & _).
  pose proof (closeResult_closes exampleOnA (js "17") HdupA)
    as (_ & _ & _ & HfocusA & _).
  split; [exact HdupB|]. split; [by rewrite HfilesB|]. split; [reflexivity|].
  split.
  - apply (HfocusB 1 (exampleB open)); reflexivity.
  - apply (HfocusA 0 (exampleA open)); reflexivity.
Defined.

(** ** The debounce invariant *)

Lemma wf_initial (pattern : jsstring) : wf (initialHooks pattern).
Proof. unfold wf; simpl; naive_solver. Qed.

Lemma filter_timer_self (id : nat) (pattern : jsstring) :
  filter (λ t, timerId t ≠ id)
    [{| timerId := id; timerPattern := pattern |}] = [].
Proof. rewrite filter_cons_False, filter_nil; simpl; tauto. Qed.

Lemma find_timer_self (id : nat) (pattern : jsstring) :
  list_find (λ t, timerId t = id)
    [{| timerId := id; timerPattern := pattern |}]
  = Some (0%nat, {| timerId := id; timerPattern := pattern |}).
Proof. simpl. by rewrite decide_True. Qed.

Lemma find_timer_other (id id' : nat) (pattern : jsstring) :
  id ≠ id' →
  list_find (λ t, timerId t = id')
    [{| timerId := id; timerPattern := pattern |}] = None.
Proof. intros. simpl. by rewrite decide_False. Qed.

Ltac hooks_cases h Hwf :=
  destruct h as [m sr r p ts n c ss];
  destruct Hwf as ([Hts | (tid & Hts & Hc)] & Hsr & Hr & Hoff);
  simpl in *; subst.

Ltac hooks_solve :=
  simpl; rewrite ?filter_timer_self, ?filter_nil; simpl;
  split_and!; intros; simplify_eq;
  repeat match goal with H : ?x = ?x → _ |- _ => specialize (H eq_refl) end;
  destruct_and?; simplify_eq; eauto.

Lemma wf_step (h : Hooks) (e : Event) : wf h → wf (step h e).
Proof.
  intros Hwf. unfold wf.
  destruct e as [|pattern|id|]; hooks_cases h Hwf;
    unfold effect, runCleanup, onTimeout; simpl.
  - destruct c, m; hooks_solve.
  - destruct m; hooks_solve.
  - destruct (bool_decide (pattern = p) || negb m) eqn:Hsame; simpl.
    + apply orb_true_elim in Hsame as [->%bool_decide_eq_true | Hm].
      * hooks_solve.
      * apply negb_true_iff in Hm. destruct (Hoff Hm) as [_ ->]. hooks_solve.
    + apply orb_false_elim in Hsame as [_ ->%negb_false_iff].
      destruct c; hooks_solve.
  - destruct (bool_decide (pattern = p) || negb m) eqn:Hsame; simpl.
    + apply orb_true_elim in Hsame as [->%bool_decide_eq_true | Hm].
      * hooks_solve.
      * apply negb_true_iff in Hm. by destruct (Hoff Hm) as [[=] _].
    + apply orb_false_elim in Hsame as [_ ->%negb_false_iff].
      hooks_solve.
  - hooks_solve.
  - destruct (decide (tid = id)) as [->|Hne]; [|hooks_solve].
    simpl. destruct (nonEmpty p && m) eqn:Hfire; hooks_solve.
  - destruct c; hooks_solve.
  - hooks_solve.
Qed.

Lemma run_snoc (h : Hooks) (events : list Event) (e : Event) :
  run h (events ++ [e]) = step (run h events) e.
Proof. unfold run. by rewrite foldl_app. Qed.

Lemma run_cons (h : Hooks) (e : Event) (events : list Event) :
  run h (e :: events) = run (step h e) events.
Proof. done. Qed.

Lemma wf_run (h : Hooks) (events : list Event) : wf h → wf (run h events).
Proof.
  intros Hwf. induction events as [|e events IH] using rev_ind; [done|].
  rewrite run_snoc. by apply wf_step.
Qed.

Lemma wf_reachable (h : Hooks) : reachable h → wf h.
Proof. intros (pattern & events & ->). apply wf_run, wf_initial. Qed.

Lemma wf_timers (h : Hooks) : wf h → (length (timers h) ≤ 1)%nat.
Proof. intros ([-> | (id & -> & _)] & _); simpl; lia. Qed.

(** At most one timer is pending at any moment. *)
Lemma one_timer_outstanding (h : Hooks) :
  reachable h → (length (timers h) ≤ 1)%nat.
Proof. intros Hwf%wf_reachable. by apply wf_timers. Qed.

Lemma step_SetSearch_fields (h : Hooks) (pattern : jsstring) :
  searches (step h (SetSearch pattern)) = searches h
  ∧ searchPattern (step h (SetSearch pattern)) = pattern
  ∧ inputRef (step h (SetSearch pattern)) = inputRef h.
Proof.
  destruct h as [m sr r p ts n c ss]; simpl.
  destruct (bool_decide (pattern = p) || negb r); [done|].
  unfold effect, runCleanup. by destruct c, m.
Qed.

Lemma step_SetSearch_changed (h : Hooks) (pattern : jsstring) :
  wf h → inputRef h = true → pattern ≠ searchPattern h →
  timers (step h (SetSearch pattern))
  = [{| timerId := nextTimer h; timerPattern := pattern |}].
Proof.
  intros Hwf Href Hne. hooks_cases h Hwf.
  all: rewrite bool_decide_eq_false_2 by done; simpl.
  all: unfold effect, runCleanup; simpl.
  - by destruct c.
  - by rewrite filter_timer_self.
Qed.

Lemma step_Timeout_pending (h : Hooks) (id : nat) (pattern : jsstring) :
  wf h →
  timers h = [{| timerId := id; timerPattern := pattern |}] →
  timers (step h (Timeout id)) = []
  ∧ searches (step h (Timeout id))
    = searches h ++ (if nonEmpty pattern then [pattern] else []).
Proof.
  intros Hwf Ht. hooks_cases h Hwf; [done|].
  injection Ht as -> <-.
  destruct m; [|by destruct Hoff as [[=] _]].
  rewrite find_timer_self. unfold onTimeout; simpl.
  rewrite andb_true_r.
  destruct (nonEmpty p); simpl; rewrite filter_timer_self;
    by rewrite ?app_nil_r.
Qed.

Lemma step_Timeout_idle (h : Hooks) (id : nat) :
  (∀ t, t ∈ timers h → timerId t ≠ id) →
  step h (Timeout id) = h.
Proof.
  intros Hnot; simpl.
  destruct (list_find _ _) as [[k t]|] eqn:Hfind; [|done].
  apply list_find_Some in Hfind as (Hk & Hid & _).
  destruct (Hnot t); [by eapply list_elem_of_lookup_2 | done].
Qed.

Lemma run_timeouts_idle (h : Hooks) (ids : list nat) :
  timers h = [] → run h (Timeout <$> ids) = h.
Proof.
  intros Ht. induction ids as [|id ids IH]; [done|].
  rewrite fmap_cons, run_cons, step_Timeout_idle; [done|].
  rewrite Ht. by intros t ?%elem_of_nil.
Qed.

Lemma run_timeouts_pending (h : Hooks) (id : nat) (pattern : jsstring)
    (ids : list nat) :
  wf h →
  timers h = [{| timerId := id; timerPattern := pattern |}] →
  id ∈ ids →
  timers (run h (Timeout <$> ids)) = []
  ∧ searches (run h (Timeout <$> ids))
    = searches h ++ (if nonEmpty pattern then [pattern] else []).
Proof.
  intros Hwf Ht. induction ids as [|id' ids IH]; [by intros ?%elem_of_nil|].
  intros Hin. rewrite fmap_cons, run_cons.
  destruct (decide (id' = id)) as [->|Hne].
  - destruct (step_Timeout_pending h id pattern Hwf Ht) as [Ht' Hs'].
    by rewrite run_timeouts_idle.
  - rewrite step_Timeout_idle.
    + apply IH. apply elem_of_cons in Hin as [?|?]; [congruence | done].
    + rewrite Ht. intros t ->%list_elem_of_singleton. simpl. congruence.
Qed.

(** ** C5: debounce *)

(** C5 (as amended).  In a mounted component, entering [p1], [p2], [p3]
    with no timer expiring in between, the last one a change to a
    pattern whose trimmed form is not empty, runs no search while
    typing, never leaves more than one timer pending, and leaves exactly
    the timer of [p3] pending; when the delay has elapsed, however often
    timers are polled, exactly one search has run, for [p3], and no
    timer is left. *)
Theorem debounce_three_patterns (h : Hooks) (p1 p2 p3 : jsstring) :
  reachable h →
  inputRef h = true →
  p3 ≠ p2 →
  nonEmpty p3 = true →
  let h1 := step h (SetSearch p1) in
  let h2 := step h1 (SetSearch p2) in
  let h3 := step h2 (SetSearch p3) in
  (length (timers h) ≤ 1 ∧ length (timers h1) ≤ 1
   ∧ length (timers h2) ≤ 1 ∧ length (timers h3) ≤ 1)%nat
  ∧ searches h1 = searches h
  ∧ searches h2 = searches h
  ∧ searches h3 = searches h
  ∧ ∃ id,
      timers h3 = [{| timerId := id; timerPattern := p3 |}]
      ∧ ∀ ids, id ∈ ids →
          searches (run h3 (Timeout <$> ids)) = searches h ++ [p3]
          ∧ timers (run h3 (Timeout <$> ids)) = [].
Proof.
  intros Hwf%wf_reachable Href Hne Hp3 h1 h2 h3.
  assert (wf h1) as Hwf1 by by apply wf_step.
  assert (wf h2) as Hwf2 by by apply wf_step.
  assert (wf h3) as Hwf3 by by apply wf_step.
  destruct (step_SetSearch_fields h p1) as (Hs1 & Hp1 & Hr1).
  destruct (step_SetSearch_fields h1 p2) as (Hs2 & Hp2 & Hr2).
  destruct (step_SetSearch_fields h2 p3) as (Hs3 & _ & _).
  fold h1 in Hs1, Hp1, Hr1, Hs2, Hp2, Hr2. fold h2 in Hs2, Hp2, Hr2, Hs3.
  fold h3 in Hs3.
  split_and!; try by apply wf_timers.
  - done.
  - congruence.
  - congruence.
  - exists (nextTimer h2).
    assert (timers h3
            = [{| timerId := nextTimer h2; timerPattern := p3 |}]) as Ht3.
    { apply step_SetSearch_changed; [done | congruence | congruence]. }
    split; [done|]. intros ids Hin.
    destruct (run_timeouts_pending h3 _ _ ids Hwf3 Ht3 Hin) as [Ht Hs].
    rewrite Hp3 in Hs. split; [|done]. rewrite Hs. congruence.
Qed.

Lemma debounce_three_patterns_witness :
  reachable exampleHooks
  ∧ inputRef exampleHooks = true
  ∧ js "TOD" ≠ js "TO"
  ∧ nonEmpty (js "TOD") = true
  ∧ (let h1 := step exampleHooks (SetSearch (js "T")) in
     let h2 := step h1 (SetSearch (js "TO")) in
     let h3 := step h2 (SetSearch (js "TOD")) in
     (length (timers exampleHooks) ≤ 1 ∧ length (timers h1) ≤ 1
      ∧ length (timers h2) ≤ 1 ∧ length (timers h3) ≤ 1)%nat
     ∧ searches h1 = searches exampleHooks
     ∧ searches h2 = searches exampleHooks
     ∧ searches h3 = searches exampleHooks
     ∧ ∃ id,
         timers h3 = [{| timerId := id; timerPattern := js "TOD" |}]
         ∧ ∀ ids, id ∈ ids →
             searches (run h3 (Timeout <$> ids))
             = searches exampleHooks ++ [js "TOD"]
             ∧ timers (run h3 (Timeout <$> ids)) = []).
Proof.
  assert (reachable exampleHooks) as Hreach
    by (exists [], [Mount]; reflexivity).
  assert (js "TOD" ≠ js "TO") as Hne by (vm_compute; discriminate).
  split; [exact Hreach|]. split; [reflexivity|]. split; [exact Hne|].
  split; [reflexivity|].
  exact (debounce_three_patterns exampleHooks (js "T") (js "TO") (js "TOD")
           Hreach eq_refl Hne eq_refl).
Defined.

(** When the third pattern is blank no search runs at all: the three
    changes leave the timer of the blank pattern pending, and its
    callback does nothing. *)
Lemma debounce_blank_third_pattern :
  js " " ≠ js "TO"
  ∧ timers
      (run exampleHooks
         [SetSearch (js "T"); SetSearch (js "TO"); SetSearch (js " ")])
    = [{| timerId := 2%nat; timerPattern := js " " |}]
  ∧ searches
      (run exampleHooks
         [SetSearch (js "T"); SetSearch (js "TO"); SetSearch (js " ");
          Timeout 0; Timeout 1; Timeout 2])
    = []
  ∧ timers
      (run exampleHooks
         [SetSearch (js "T"); SetSearch (js "TO"); SetSearch (js " ");
          Timeout 0; Timeout 1; Timeout 2])
    = [].
Proof. split; [vm_compute; discriminate|]. repeat split. Qed.

(** The run of the witness, evaluated: three changes, then every timer
    id polled. *)
Example debounce_three_patterns_run :
  searches
    (run exampleHooks
       [SetSearch (js "T"); SetSearch (js "TO"); SetSearch (js "TOD");
        Timeout 0; Timeout 1; Timeout 2; Timeout 2])
  = [js "TOD"].
Proof. vm_compute. reflexivity. Qed.

(** ** C6: an empty pattern *)

Lemma quiet_step (h : Hooks) (e : Event) :
  wf h →
  nonEmpty (searchPattern h) = false →
  (∀ q, e = SetSearch q → nonEmpty q = false) →
  nonEmpty (searchPattern (step h e)) = false
  ∧ searches (step h e) = searches h.
Proof.
  intros Hwf Hblank He. destruct e as [|q|id|].
  - hooks_cases h Hwf; unfold effect, runCleanup; simpl.
    + by destruct c, m.
    + by destruct m.
  - destruct (step_SetSearch_fields h q) as (-> & -> & _). eauto.
  - hooks_cases h Hwf; [done|].
    destruct (decide (tid = id)) as [->|?];
      [rewrite find_timer_self | by rewrite find_timer_other].
    unfold onTimeout; simpl. by rewrite Hblank.
  - hooks_cases h Hwf; unfold runCleanup; simpl; [by destruct c | done].
Qed.

(** C6.  Once a pattern whose trimmed form is empty has been entered,
    and for as long as no other kind of pattern is entered, no search is
    run, whichever timers expire and however the component is mounted
    or unmounted, and [isSearching] is [false]. *)
Theorem empty_pattern_never_searches
    (h : Hooks) (p : jsstring) (events : list Event) :
  reachable h →
  length (trim p) = 0%nat →
  Forall (λ e, ∀ q, e = SetSearch q → length (trim q) = 0%nat) events →
  searches (run (step h (SetSearch p)) events) = searches h
  ∧ isSearching (run (step h (SetSearch p)) events) = false.
Proof.
  intros Hwf%wf_reachable Hp Hevents.
  assert (∀ q, length (trim q) = 0%nat → nonEmpty q = false) as Hblank.
  { intros q Hq. unfold nonEmpty. rewrite Hq. by apply bool_decide_eq_false_2; lia. }
  set (h0 := step h (SetSearch p)).
  assert (wf h0) as Hwf0 by by apply wf_step.
  destruct (step_SetSearch_fields h p) as (Hs0 & Hp0 & _). fold h0 in Hs0, Hp0.
  assert (nonEmpty (searchPattern h0) = false) as Hb0 by (rewrite Hp0; auto).
  rewrite <- Hs0. clearbody h0. clear Hs0 Hp0 Hwf Hp.
  assert (wf (run h0 events)
          ∧ nonEmpty (searchPattern (run h0 events)) = false
          ∧ searches (run h0 events) = searches h0) as (Hwf' & Hb' & Hs').
  { induction events as [|e events IH] using rev_ind; [done|].
    apply Forall_app in Hevents as [Hevents He%Forall_inv].
    destruct (IH Hevents) as (IHwf & IHb & IHs). rewrite run_snoc.
    destruct (quiet_step (run h0 events) e IHwf IHb) as [Hb1 Hs1];
      [intros q Hq; auto|].
    split; [by apply wf_step|]. split; [done | congruence]. }
  split; [done|].
  destruct Hwf' as (_ & Hsearching & _).
  destruct (isSearching (run h0 events)); [|done].
  rewrite Hsearching in Hb'; done.
Qed.

Lemma empty_pattern_never_searches_witness :
  reachable exampleTyped
  ∧ length (trim (js "  ")) = 0%nat
  ∧ Forall (λ e, ∀ q, e = SetSearch q → length (trim q) = 0%nat)
      [Timeout 1; Timeout 2; Unmount; Mount; SetSearch (js " "); Timeout 3]
  ∧ searches
      (run (step exampleTyped (SetSearch (js "  ")))
         [Timeout 1; Timeout 2; Unmount; Mount; SetSearch (js " ");
          Timeout 3])
    = searches exampleTyped
  ∧ isSearching
      (run (step exampleTyped (SetSearch (js "  ")))
         [Timeout 1; Timeout 2; Unmount; Mount; SetSearch (js " ");
          Timeout 3])
    = false.
Proof.
  assert (reachable exampleTyped) as Hreach
    by (exists [], [Mount; SetSearch (js "TODO")]; reflexivity).
  assert (Forall (λ e, ∀ q, e = SetSearch q → length (trim q) = 0%nat)
            [Timeout 1; Timeout 2; Unmount; Mount; SetSearch (js " ");
             Timeout 3]) as Hevents.
  { repeat constructor; intros q [=]; subst; reflexivity. }
  split; [exact Hreach|]. split; [reflexivity|]. split; [exact Hevents|].
  apply (empty_pattern_never_searches exampleTyped (js "  ") _ Hreach
           eq_refl Hevents).
Defined.

(** * Further properties of the code *)

(** ** The pieces of a rendered line *)

Lemma substring_take_drop (s : jsstring) (a b : Z) :
  0 ≤ a ≤ b →
  substring s a (Some b)
  = take (Z.to_nat (Z.min b (Z.of_nat (length s)))
          - Z.to_nat (Z.min a (Z.of_nat (length s))))
      (drop (Z.to_nat (Z.min a (Z.of_nat (length s)))) s).
Proof.
  intros Hab. unfold substring; simpl default. f_equal; [|f_equal]; lia.
Qed.

Lemma substring_to_end (s : jsstring) (a : Z) :
  substring s a None = drop (Z.to_nat (Z.min a (Z.of_nat (length s)))) s.
Proof.
  unfold substring; simpl default.
  replace (Z.to_nat (Z.min (Z.min (Z.max a 0) (Z.of_nat (length s)))
                       (Z.min (Z.max (Z.of_nat (length s)) 0)
                          (Z.of_nat (length s)))))
    with (Z.to_nat (Z.min a (Z.of_nat (length s)))) by lia.
  apply take_ge. rewrite length_drop. lia.
Qed.

Lemma substring_clamp_start (s : jsstring) (a : Z) (finish : option Z) :
  substring s a finish = substring s (Z.max a 0) finish.
Proof.
  unfold substring. by replace (Z.max (Z.max a 0) 0) with (Z.max a 0) by lia.
Qed.

Lemma substring_clamp_finish (s : jsstring) (a b : Z) :
  substring s a (Some b) = substring s a (Some (Z.max b 0)).
Proof.
  unfold substring; simpl default.
  by replace (Z.max (Z.max b 0) 0) with (Z.max b 0) by lia.
Qed.

(** X1.  Whatever the index of the match and the pattern are, the three
    pieces a line is rendered from put together give the text of the
    line, and the highlighted piece is no longer than the pattern. *)
Theorem line_pieces_concat (pattern : jsstring) (m : SearchMatch) :
  SearchLine.before m ++ SearchLine.hit pattern m
    ++ SearchLine.after pattern m = text m
  ∧ (length (SearchLine.hit pattern m) ≤ length pattern)%nat.
Proof.
  unfold SearchLine.before, SearchLine.hit, SearchLine.after.
  rewrite (substring_clamp_finish _ 0 (index m)).
  rewrite (substring_clamp_start _ (index m)),
    (substring_clamp_finish _ _ (index m + _)).
  rewrite (substring_clamp_start _ (index m + _)).
  rewrite !substring_take_drop, substring_to_end by lia.
  set (len := Z.of_nat (length (text m))).
  set (k := Z.of_nat (length pattern)).
  set (a := Z.to_nat (Z.min (Z.max (index m) 0) len)).
  set (b := Z.to_nat (Z.min (Z.max (index m + k) 0) len)).
  replace (Z.to_nat (Z.min (Z.max (index m) 0) len)
           - Z.to_nat (Z.min 0 len))%nat with a by lia.
  replace (Z.to_nat (Z.min 0 len)) with 0%nat by lia.
  replace (Z.to_nat (Z.min (Z.max (Z.max (index m) 0) 0) len)) with a by lia.
  replace (Z.to_nat (Z.min (Z.max (index m + k) 0) len)) with b by lia.
  replace (Z.to_nat (Z.min (Z.max (index m + k) 0) len)) with b by lia.
  assert (a ≤ b)%nat as Hab by lia.
  assert (b - a ≤ length pattern)%nat as Hk by lia.
  split.
  - rewrite drop_0.
    replace (drop b (text m)) with (drop (b - a) (drop a (text m)))
      by (rewrite drop_drop; f_equal; lia).
    rewrite Nat.sub_0_r.
    rewrite (take_drop (b - a) (drop a (text m))). apply take_drop.
  - rewrite length_take. lia.
Qed.

(** X2.  When the pattern occurs in the line at the index of the match,
    the pieces are the text before the occurrence, the occurrence and
    the text after it. *)
Theorem line_pieces_of_occurrence
    (pattern pre post : jsstring) (m : SearchMatch) :
  text m = pre ++ pattern ++ post →
  index m = Z.of_nat (length pre) →
  SearchLine.before m = pre
  ∧ SearchLine.hit pattern m = pattern
  ∧ SearchLine.after pattern m = post.
Proof.
  intros Htext Hindex.
  unfold SearchLine.before, SearchLine.hit, SearchLine.after.
  rewrite !substring_take_drop, substring_to_end by lia.
  rewrite Hindex, Htext, !length_app.
  replace (Z.to_nat (Z.min 0 _)) with 0%nat by lia.
  replace (Z.to_nat (Z.min (Z.of_nat (length pre)) _))
    with (length pre) by lia.
  replace (Z.to_nat (Z.min (Z.of_nat (length pre)
                            + Z.of_nat (length pattern)) _))
    with (length pre + length pattern)%nat by lia.
  rewrite drop_0, Nat.sub_0_r, take_app_length, drop_app_length.
  replace (length pre + length pattern - length pre)%nat
    with (length pattern) by lia.
  rewrite take_app_length. split_and!; [done..|].
  by rewrite app_assoc, <- length_app, drop_app_length.
Qed.

Lemma line_pieces_of_occurrence_witness :
  text (exampleMatch 3 4) = js "foo " ++ js "bar" ++ js " baz"
  ∧ index (exampleMatch 3 4) = Z.of_nat (length (js "foo "))
  ∧ SearchLine.before (exampleMatch 3 4) = js "foo "
  ∧ SearchLine.hit (js "bar") (exampleMatch 3 4) = js "bar"
  ∧ SearchLine.after (js "bar") (exampleMatch 3 4) = js " baz".
Proof.
  split; [reflexivity|]. split; [reflexivity|].
  apply (line_pieces_of_occurrence (js "bar") (js "foo ") (js " baz")
           (exampleMatch 3 4)); reflexivity.
Defined.

(** ** Click handlers *)

Lemma lineClick_after (s : Search) (editorCache : gmap FileId EditorView)
    (fileId : FileId) (i c : nat) (m : SearchMatch) :
  after s (lineClick s editorCache fileId i c m)
  = withFocus (Some (Z.of_nat i)) (Some (Z.of_nat c)) s.
Proof.
  unfold lineClick. rewrite after_call_bind; simpl reduce.
  destruct (editorCache !! fileId) as [editor|]; [|done].
  apply jumpToPattern_after.
Qed.

Lemma lineClick_calls (s : Search) (editorCache : gmap FileId EditorView)
    (fileId : FileId) (i c : nat) (m : SearchMatch) (x : Call) :
  x ∈ calls (lineClick s editorCache fileId i c m) →
  x = setSearchFocusedIndex (Some (Z.of_nat i)) (Some (Z.of_nat c))
  ∨ ∃ editor tr, editorCache !! fileId = Some editor ∧ x = dispatch editor tr.
Proof.
  unfold lineClick. rewrite calls_call_bind.
  intros [->|Hin]%elem_of_cons; [by left | right].
  destruct (editorCache !! fileId) as [editor|]; [|by apply elem_of_nil in Hin].
  apply jumpToPattern_calls in Hin as [tr ->]. eauto.
Qed.

(** X3.  Every line handler the render installs belongs to a match of a
    visible file that is not flattened; clicking it gives the focus
    exactly that file and that match, so that the focus invariant holds
    afterwards, and it makes no other call than that and, if the file
    has an editor, the dispatch of the jump: it never sets the active
    file. *)
Theorem lineClicks_focus
    (s : Search) (editorCache : gmap FileId EditorView) (h : Eff ()) :
  h ∈ lineClicks s editorCache →
  ∃ (i c : nat) entry m,
    files (results s) !! i = Some entry
    ∧ visibility entry.2 ≠ flattened
    ∧ matches entry.2 !! c = Some m
    ∧ h = lineClick s editorCache entry.1 i c m
    ∧ focus (after s h) = (Some (Z.of_nat i), Some (Z.of_nat c))
    ∧ focusInvariant (after s h) = true
    ∧ (∀ fileId, setActiveFileId fileId ∉ calls h).
Proof.
  unfold lineClicks.
  destruct (resultsShown s); [|by intros ?%elem_of_nil].
  intros (l & Hh & (i & entry & -> & Hentry)%elem_of_lookup_imap)
    %list_elem_of_join.
  case_bool_decide as Hvis; [|by apply elem_of_nil in Hh].
  apply elem_of_lookup_imap in Hh as (c & m & -> & Hm).
  exists i, c, entry, m. split_and!; [done..| | |].
  - by rewrite lineClick_after.
  - rewrite lineClick_after. unfold focusInvariant; simpl.
    change (matchCount (withFocus _ _ s) (Z.of_nat i))
      with (matchCount s (Z.of_nat i)).
    rewrite (matchCount_entry s _ entry).
    + apply bool_decide_eq_true_2. apply lookup_lt_Some in Hm. lia.
    + apply subscript_Some. exists (Z.of_nat i).
      rewrite Nat2Z.id. split_and!; [done | lia | done].
  - intros fileId [? | (? & ? & _ & ?)]%lineClick_calls; done.
Qed.

Lemma lineClicks_focus_witness :
  lineClick exampleOnA exampleCache (js "17") 0 1 (exampleMatch 3 5)
    ∈ lineClicks exampleOnA exampleCache
  ∧ ∃ (i c : nat) entry m,
      files (results exampleOnA) !! i = Some entry
      ∧ visibility entry.2 ≠ flattened
      ∧ matches entry.2 !! c = Some m
      ∧ lineClick exampleOnA exampleCache (js "17") 0 1 (exampleMatch 3 5)
        = lineClick exampleOnA exampleCache entry.1 i c m
      ∧ focus (after exampleOnA
                 (lineClick exampleOnA exampleCache (js "17") 0 1
                    (exampleMatch 3 5)))
        = (Some (Z.of_nat i), Some (Z.of_nat c))
      ∧ focusInvariant
          (after exampleOnA
             (lineClick exampleOnA exampleCache (js "17") 0 1
                (exampleMatch 3 5))) = true
      ∧ (∀ fileId,
           setActiveFileId fileId
             ∉ calls (lineClick exampleOnA exampleCache (js "17") 0 1
                        (exampleMatch 3 5))).
Proof.
  assert (lineClick exampleOnA exampleCache (js "17") 0 1 (exampleMatch 3 5)
            ∈ lineClicks exampleOnA exampleCache) as Hin.
  { unfold lineClicks.
    change (resultsShown exampleOnA) with true. cbv iota.
    apply list_elem_of_join.
    eexists. split;
      [|apply (elem_of_lookup_imap_2 _ _ (js "17", exampleA open) 0%nat);
        reflexivity].
    cbn [snd fst]. rewrite bool_decide_eq_true_2 by discriminate.
    apply (elem_of_lookup_imap_2 _ _ (exampleMatch 3 5) 1%nat). reflexivity. }
  split; [exact Hin|].
  exact (lineClicks_focus exampleOnA exampleCache _ Hin).
Defined.

(** ** What a key press may call *)

Lemma subscript_lt {A} (a : list A) (i : Z) (x : A) :
  subscript a (Some i) = Some x → 0 ≤ i < Z.of_nat (length a).
Proof.
  intros (? & [= <-] & ? & ?%lookup_lt_Some)%subscript_Some. lia.
Qed.

Lemma focusInvariant_withFocus (s : Search) (j : Z) (ci : nullable) :
  focusInvariant (withFocus (Some j) ci s) = true
  ↔ ∀ c, ci = Some c → 0 ≤ c < matchCount s j.
Proof.
  unfold focusInvariant; simpl.
  change (matchCount (withFocus (Some j) ci s) j) with (matchCount s j).
  destruct ci as [c|].
  - rewrite bool_decide_eq_true. split; [by intros ? ? [= <-] | eauto].
  - split; [by intros _ ? [=] | done].
Qed.

Lemma activate_calls (s : Search) (editorCache : gmap FileId EditorView)
    (fi : nullable) (entry : FileId * SearchFile) (c : Call) :
  c ∈ calls
        (call (setActiveFileId entry.1);;
         if negb (isNull (focusedChildIndex s)) then
           m ← matchAt s fi (focusedChildIndex s);
           match editorCache !! entry.1 with
           | Some editor =>
               jumpToPattern editor (pattern s) (line m) (index m)
           | None => mret ()
           end
         else mret ()) →
  c = setActiveFileId entry.1
  ∨ ∃ editor tr, c = dispatch editor tr ∧ editorCache !! entry.1 = Some editor.
Proof.
  rewrite calls_call_bind. intros [->|Hc]%elem_of_cons; [by left | right].
  destruct (negb _); [|by apply elem_of_nil in Hc].
  unfold matchAt, fileAt in Hc.
  destruct (subscript _ fi) as [entry'|];
    [rewrite bind_deref_Some in Hc
    |rewrite !bind_deref_None in Hc; by apply elem_of_nil in Hc].
  destruct (subscript _ (focusedChildIndex s)) as [m|];
    [rewrite bind_deref_Some in Hc
    |rewrite bind_deref_None in Hc; by apply elem_of_nil in Hc].
  destruct (editorCache !! entry.1) as [editor|];
    [|by apply elem_of_nil in Hc].
  apply jumpToPattern_calls in Hc as [tr ->]. eauto.
Qed.

(** The calls the [switch] can make, with the focus on file [i]. *)
Lemma keySwitch_call_cases (s : Search)
    (editorCache : gmap FileId EditorView) (key : Key) (i : Z)
    (entry : FileId * SearchFile) (c : Call) :
  focusedIndex s = Some i →
  subscript (files (results s)) (Some i) = Some entry →
  c ∈ calls (keySwitch s editorCache key
               (Z.of_nat (length (matches entry.2)))) →
  (∃ j ci, c = setSearchFocusedIndex (Some j) ci
           ∧ 0 ≤ j < visibleCount s ∧ -1 ≤ j - i ≤ 1
           ∧ key ≠ Enter ∧ key ≠ Space
           ∧ (matches entry.2 ≠ [] → focusInvariant s = true →
              focusInvariant (withFocus (Some j) ci s) = true))
  ∨ (c = setSearchFileVisibility entry.1
           (if bool_decide (visibility entry.2 = open)
            then flattened else open) (Some (name entry.2))
     ∧ (key = ArrowLeft ∨ key = ArrowRight))
  ∨ (c = setActiveFileId entry.1 ∧ (key = Enter ∨ key = Space))
  ∨ (∃ editor tr, c = dispatch editor tr
                  ∧ editorCache !! entry.1 = Some editor
                  ∧ (key = Enter ∨ key = Space)).
Proof.
  intros Hi He.
  pose proof (subscript_lt _ _ _ He) as Hrange.
  pose proof (matchCount_entry _ _ _ He) as HM.
  assert (∀ ci, (matches entry.2 ≠ [] → focusInvariant s = true →
                 ∀ x, ci = Some x → 0 ≤ x < matchCount s i) →
          key ≠ Enter → key ≠ Space →
          ∃ j ci', setSearchFocusedIndex (Some i) ci
                   = setSearchFocusedIndex (Some j) ci'
           ∧ 0 ≤ j < visibleCount s ∧ -1 ≤ j - i ≤ 1
           ∧ key ≠ Enter ∧ key ≠ Space
           ∧ (matches entry.2 ≠ [] → focusInvariant s = true →
              focusInvariant (withFocus (Some j) ci' s) = true)) as Hsame.
  { intros ci Hci ? ?. exists i, ci. unfold visibleCount.
    split_and!; [done | lia.. | done | done |].
    intros ? ?. apply focusInvariant_withFocus. eauto. }
  assert (matches entry.2 ≠ [] → 0 < matchCount s i) as Hpos.
  { rewrite HM. destruct (matches entry.2); [done | simpl; lia]. }
  assert (focusInvariant s = true →
          ∀ x, focusedChildIndex s = Some x → 0 ≤ x < matchCount s i)
    as Hinv.
  { unfold focusInvariant. rewrite Hi. intros H x Hx. rewrite Hx in H.
    by apply bool_decide_eq_true in H. }
  unfold keySwitch. rewrite Hi. destruct key.
  - (* Tab *)
    intros ->%list_elem_of_singleton. left. by apply Hsame.
  - (* ArrowUp *)
    destruct (looseEqNum _ _ && _); [by intros ?%elem_of_nil|].
    destruct (focusedChildIndex s) as [x|] eqn:Hx; cbn [isNull].
    + unfold strictEqNum. case_bool_decide;
        intros ->%list_elem_of_singleton; left; apply Hsame; try done.
      intros Hne Hs y [= <-]. specialize (Hinv Hs x eq_refl).
      change (toNumber (Some x)) with x. lia.
    + unfold fileAt. change (toNumber (Some i)) with i.
      destruct (subscript _ (Some (i - 1))) as [previous|] eqn:Hp;
        [rewrite bind_deref_Some
        |rewrite bind_deref_None; by intros ?%elem_of_nil].
      pose proof (subscript_lt _ _ _ Hp).
      pose proof (matchCount_entry _ _ _ Hp) as HMp.
      destruct (_ >? 0) eqn:Hgt; intros ->%list_elem_of_singleton; left;
        eexists _, _; (split; [reflexivity|]); unfold visibleCount;
        (split_and!; [lia.. | done | done |]); intros _ _;
        apply focusInvariant_withFocus; [|done].
      intros y [= <-]. rewrite HMp. lia.
  - (* ArrowDown *)
    unfold looseEqNum at 1.
    destruct (focusedChildIndex s) as [x|] eqn:Hx; cbn [isNull looseEqNum].
    + case_bool_decide as Hlast; case_bool_decide as Hend; cbn [andb];
        try (by intros ?%elem_of_nil);
        intros ->%list_elem_of_singleton; left;
        change (toNumber (Some i)) with i;
        change (toNumber (Some x)) with x.
      * apply Hsame; try done.
        intros Hne Hs y [= <-]. specialize (Hinv Hs x eq_refl). lia.
      * eexists _, _. split; [reflexivity|].
        unfold visibleCount. split_and!; [lia.. | done | done |].
        intros _ _. by apply focusInvariant_withFocus.
      * apply Hsame; try done.
        intros Hne Hs y [= <-]. specialize (Hinv Hs x eq_refl). lia.
    + rewrite andb_false_r. cbn [andb].
      destruct (_ >? 0) eqn:Hgt; intros ->%list_elem_of_singleton; left;
        apply Hsame; try done.
      * intros Hne _ y [= <-]. specialize (Hpos Hne). lia.
      * intros Hne _ y _. specialize (Hpos Hne). lia.
  - (* ArrowLeft *)
    destruct (negb _).
    + intros ->%list_elem_of_singleton. left. by apply Hsame.
    + unfold fileAt. rewrite He, bind_deref_Some.
      intros ->%list_elem_of_singleton. right; left. eauto.
  - (* ArrowRight *)
    unfold fileAt. rewrite He, bind_deref_Some.
    case_bool_decide as Hvis.
    + intros ->%list_elem_of_singleton. right; left. eauto.
    + destruct (isNull _); [|by intros ?%elem_of_nil].
      intros ->%list_elem_of_singleton. left. apply Hsame; try done.
      intros Hne _ y [= <-]. specialize (Hpos Hne). lia.
  - (* Enter *)
    unfold fileAt at 1. rewrite He, bind_deref_Some.
    intros [-> | (editor & tr & -> & ?)]%activate_calls.
    + right; right; left. eauto.
    + right; right; right. eauto 6.
  - (* Space *)
    unfold fileAt at 1. rewrite He, bind_deref_Some.
    intros [-> | (editor & tr & -> & ?)]%activate_calls.
    + right; right; left. eauto.
    + right; right; right. eauto 6.
  - (* another key *)
    by intros ?%elem_of_nil.
Qed.

Lemma handleKeyDown_call_cases (s : Search)
    (editorCache : gmap FileId EditorView) (document : Document)
    (key : Key) (c : Call) :
  c ∈ calls (handleKeyDown s editorCache document key) →
  c = preventDefault
  ∨ ∃ i entry,
      focusedIndex s = Some i
      ∧ subscript (files (results s)) (Some i) = Some entry
      ∧ (c ∈ calls (keySwitch s editorCache key
                      (Z.of_nat (length (matches entry.2))))
         ∨ c ∈ calls (keepInView s document)).
Proof.
  destruct (subscript (files (results s)) (focusedIndex s))
    as [entry|] eqn:He.
  - rewrite (handleKeyDown_defined _ _ _ _ entry He).
    rewrite calls_call_bind. intros [->|Hc]%elem_of_cons; [by left|].
    right. destruct (focusedIndex s) as [i|] eqn:Hi; [|done].
    exists i, entry. split_and!; [done..|].
    rewrite calls_bind in Hc.
    destruct (completion _); [|by left].
    apply elem_of_app in Hc. tauto.
  - unfold handleKeyDown, fileAt. rewrite He, calls_call_bind.
    rewrite bind_deref_None.
    intros [->|?%elem_of_nil]%elem_of_cons; [by left | done].
Qed.

Lemma keepInView_call_cases (s : Search) (document : Document) (c : Call) :
  c ∈ calls (keepInView s document) →
  ∃ container element,
    document (js "sidebar-view-container") = Some container
    ∧ focusElement s document = Some element
    ∧ c = elementScrollIntoView element center
    ∧ completion (isResultElementWithinView container (Some element))
      = Normal false.
Proof.
  unfold focusElement, keepInView, fileAt, matchAt,
    isResultElementWithinView, fileAt.
  destruct (subscript _ _) as [entry|];
    [rewrite bind_deref_Some | by intros ?%elem_of_nil].
  cbn [mbind option_bind].
  destruct (document (js "sidebar-view-container")) as [container|];
    [|by intros ?%elem_of_nil].
  destruct (focusedChildIndex s) as [x|]; cbn [isNull].
  - rewrite bind_deref_Some.
    destruct (subscript _ _) as [m|];
      [rewrite bind_deref_Some | by intros ?%elem_of_nil].
    cbn [mbind option_bind].
    destruct (document _) as [el|];
      [rewrite !bind_deref_Some, !bind_ret | by intros ?%elem_of_nil].
    destruct (_ && _) eqn:Hin; [by intros ?%elem_of_nil|].
    intros ->%list_elem_of_singleton.
    eexists _, _. split_and!; [done..|].
    rewrite bind_deref_Some. cbn [completion mret Eff_ret]. by rewrite Hin.
  - destruct (document entry.1) as [el|];
      [rewrite !bind_deref_Some, !bind_ret | by intros ?%elem_of_nil].
    destruct (_ && _) eqn:Hin; [by intros ?%elem_of_nil|].
    intros ->%list_elem_of_singleton.
    eexists _, _. split_and!; [done..|].
    rewrite bind_deref_Some. cbn [completion mret Eff_ret]. by rewrite Hin.
Qed.

(** X4.  Whatever the state and the key, a key press only ever asks for
    a focus on a file index that exists in the list of visible files,
    and that is the focused index, the one before or the one after. *)
Theorem handleKeyDown_focus_in_range
    (s : Search) (editorCache : gmap FileId EditorView)
    (document : Document) (key : Key) (fi ci : nullable) :
  setSearchFocusedIndex fi ci
    ∈ calls (handleKeyDown s editorCache document key) →
  ∃ i j, focusedIndex s = Some i ∧ fi = Some j
         ∧ 0 ≤ j < visibleCount s ∧ -1 ≤ j - i ≤ 1.
Proof.
  intros [[=] | (i & entry & Hi & He & [Hc|Hc])]%handleKeyDown_call_cases.
  - apply (keySwitch_call_cases _ _ _ i entry) in Hc; [|done..].
    destruct Hc as [(j & ci' & [= -> ->] & ? & ? & _)
                   |[[[=] _]|[[[=] _]|(? & ? & [=] & _)]]].
    eauto 6.
  - by apply keepInView_call_cases in Hc as (? & ? & _ & _ & [=] & _).
Qed.

Lemma handleKeyDown_focus_in_range_witness :
  setSearchFocusedIndex (Some 1) None
    ∈ calls (handleKeyDown exampleOnMatch ∅ noDocument ArrowDown)
  ∧ ∃ i j, focusedIndex exampleOnMatch = Some i ∧ Some 1 = Some j
           ∧ 0 ≤ j < visibleCount exampleOnMatch ∧ -1 ≤ j - i ≤ 1.
Proof.
  assert (setSearchFocusedIndex (Some 1) None
            ∈ calls (handleKeyDown exampleOnMatch ∅ noDocument ArrowDown))
    as Hin by (by apply (list_elem_of_lookup_2 _ 1%nat)).
  split; [exact Hin|].
  exact (handleKeyDown_focus_in_range exampleOnMatch ∅ noDocument ArrowDown
           _ _ Hin).
Defined.

(** X5.  When the focus of the render satisfies the focus invariant and
    the focused file has a match, every focus a key press asks for
    satisfies the invariant again: a child index it sets is an index of
    a match of the file it sets. *)
Theorem handleKeyDown_keeps_focusInvariant
    (s : Search) (editorCache : gmap FileId EditorView)
    (document : Document) (key : Key) (fi ci : nullable) :
  (∀ entry, subscript (files (results s)) (focusedIndex s) = Some entry →
            matches entry.2 ≠ []) →
  focusInvariant s = true →
  setSearchFocusedIndex fi ci
    ∈ calls (handleKeyDown s editorCache document key) →
  focusInvariant (withFocus fi ci s) = true.
Proof.
  intros Hne Hinv
    [[=] | (i & entry & Hi & He & [Hc|Hc])]%handleKeyDown_call_cases.
  - rewrite Hi in Hne. specialize (Hne entry He).
    apply (keySwitch_call_cases _ _ _ i entry) in Hc; [|done..].
    destruct Hc as [(j & ci' & [= -> ->] & _ & _ & _ & _ & H)
                   |[[[=] _]|[[[=] _]|(? & ? & [=] & _)]]].
    by apply H.
  - by apply keepInView_call_cases in Hc as (? & ? & _ & _ & [=] & _).
Qed.

Lemma handleKeyDown_keeps_focusInvariant_witness :
  (∀ entry,
     subscript (files (results exampleOnMatch)) (focusedIndex exampleOnMatch)
     = Some entry → matches entry.2 ≠ [])
  ∧ focusInvariant exampleOnMatch = true
  ∧ setSearchFocusedIndex (Some 0) (Some 0)
      ∈ calls (handleKeyDown exampleOnMatch ∅ noDocument ArrowUp)
  ∧ focusInvariant (withFocus (Some 0) (Some 0) exampleOnMatch) = true.
Proof.
  assert (∀ entry,
            subscript (files (results exampleOnMatch))
              (focusedIndex exampleOnMatch) = Some entry →
            matches entry.2 ≠ []) as Hne by (by intros ? [= <-]).
  assert (setSearchFocusedIndex (Some 0) (Some 0)
            ∈ calls (handleKeyDown exampleOnMatch ∅ noDocument ArrowUp))
    as Hin by (by apply (list_elem_of_lookup_2 _ 1%nat)).
  split; [exact Hne|]. split; [reflexivity|]. split; [exact Hin|].
  exact (handleKeyDown_keeps_focusInvariant exampleOnMatch ∅ noDocument
           ArrowUp _ _ Hne eq_refl Hin).
Defined.

Lemma keySwitch_visibilityWrites_length (s : Search)
    (editorCache : gmap FileId EditorView) (key : Key) (matchingLines : Z) :
  (length (visibilityWrites (keySwitch s editorCache key matchingLines))
   ≤ 1)%nat.
Proof.
  destruct key;
    try (rewrite keySwitch_visibilityWrites by done; simpl; lia).
  - unfold keySwitch, fileAt. destruct (negb _); [simpl; lia|].
    destruct (subscript _ _) as [entry|];
      [rewrite bind_deref_Some | rewrite bind_deref_None]; simpl; lia.
  - unfold keySwitch, fileAt.
    destruct (subscript _ _) as [entry|];
      [rewrite bind_deref_Some | rewrite bind_deref_None; simpl; lia].
    case_bool_decide; [simpl; lia|]. destruct (isNull _); simpl; lia.
Qed.

(** X6.  A key press writes the visibility of at most one file, and
    only ArrowLeft and ArrowRight write one: that of the focused file,
    together with its name, and the value written differs from the
    visibility the file has and is never [closed]. *)
Theorem handleKeyDown_visibility_toggle
    (s : Search) (editorCache : gmap FileId EditorView)
    (document : Document) (key : Key)
    (fileId : FileId) (v : SearchFileVisibility) (fileName : option jsstring) :
  setSearchFileVisibility fileId v fileName
    ∈ calls (handleKeyDown s editorCache document key) →
  (key = ArrowLeft ∨ key = ArrowRight)
  ∧ (∃ entry, subscript (files (results s)) (focusedIndex s) = Some entry
              ∧ fileId = entry.1 ∧ fileName = Some (name entry.2)
              ∧ v ≠ visibility entry.2)
  ∧ v ≠ closed
  ∧ visibilityWrites (handleKeyDown s editorCache document key)
    = [(fileId, v)].
Proof.
  intros Hin.
  assert ((fileId, v)
            ∈ visibilityWrites (handleKeyDown s editorCache document key))
    as Hw by (apply list_elem_of_omap; eauto).
  apply handleKeyDown_call_cases in Hin
    as [[=] | (i & entry & Hi & He & [Hc|Hc])].
  - apply (keySwitch_call_cases _ _ _ i entry) in Hc; [|done..].
    destruct Hc as [(? & ? & [=] & _)
                   |[[[= -> -> ->] Hkey]|[[[=] _]|(? & ? & [=] & _)]]].
    assert (visibility entry.2 ≠ closed) as Hvis.
    { apply subscript_Some in He as (? & _ & _ & He).
      by apply list_elem_of_lookup_2, list_elem_of_filter in He as [? _]. }
    split_and!; [done | | by case_bool_decide |].
    + exists entry. rewrite Hi. split_and!; [done..|].
      case_bool_decide; [congruence|]. by destruct (visibility entry.2).
    + rewrite (handleKeyDown_visibilityWrites _ _ _ _ entry) in Hw |- *
        by by rewrite Hi.
      pose proof (keySwitch_visibilityWrites_length s editorCache key
                    (Z.of_nat (length (matches entry.2)))) as Hlen.
      destruct (visibilityWrites _) as [|w [|w' ws]];
        [by apply elem_of_nil in Hw | | simpl in Hlen; lia].
      by apply list_elem_of_singleton in Hw as ->.
  - by apply keepInView_call_cases in Hc as (? & ? & _ & _ & [=] & _).
Qed.

Lemma handleKeyDown_visibility_toggle_witness :
  setSearchFileVisibility (js "17") open (Some (js "a.ts"))
    ∈ calls (handleKeyDown exampleFlattened ∅ noDocument ArrowRight)
  ∧ (ArrowRight = ArrowLeft ∨ ArrowRight = ArrowRight)
  ∧ (∃ entry,
       subscript (files (results exampleFlattened))
         (focusedIndex exampleFlattened) = Some entry
       ∧ js "17" = entry.1 ∧ Some (js "a.ts") = Some (name entry.2)
       ∧ open ≠ visibility entry.2)
  ∧ open ≠ closed
  ∧ visibilityWrites (handleKeyDown exampleFlattened ∅ noDocument ArrowRight)
    = [(js "17", open)].
Proof.
  assert (setSearchFileVisibility (js "17") open (Some (js "a.ts"))
            ∈ calls (handleKeyDown exampleFlattened ∅ noDocument ArrowRight))
    as Hin by (by apply (list_elem_of_lookup_2 _ 1%nat)).
  split; [exact Hin|].
  exact (handleKeyDown_visibility_toggle exampleFlattened ∅ noDocument
           ArrowRight _ _ _ Hin).
Defined.

(** X7.  Only Enter and Space reach the editor: a key press that sets
    the active file or dispatches a transaction is one of these two, the
    file made active is the focused file, and a transaction goes to the
    editor the cache holds for the focused file. *)
Theorem handleKeyDown_editor_calls
    (s : Search) (editorCache : gmap FileId EditorView)
    (document : Document) (key : Key) (c : Call) :
  c ∈ calls (handleKeyDown s editorCache document key) →
  (∃ fileId, c = setActiveFileId fileId)
  ∨ (∃ editor tr, c = dispatch editor tr) →
  (key = Enter ∨ key = Space)
  ∧ ∃ entry,
      subscript (files (results s)) (focusedIndex s) = Some entry
      ∧ (c = setActiveFileId entry.1
         ∨ ∃ editor tr, editorCache !! entry.1 = Some editor
                        ∧ c = dispatch editor tr).
Proof.
  intros [-> | (i & entry & Hi & He & [Hc|Hc])]%handleKeyDown_call_cases
    Hkind.
  - by destruct Hkind as [[? [=]] | (? & ? & [=])].
  - rewrite Hi.
    apply (keySwitch_call_cases _ _ _ i entry) in Hc; [|done..].
    destruct Hc as [(? & ? & -> & _)
                   |[[-> _]|[[-> Hkey]|(editor & tr & -> & ? & Hkey)]]].
    + by destruct Hkind as [[? [=]] | (? & ? & [=])].
    + by destruct Hkind as [[? [=]] | (? & ? & [=])].
    + eauto.
    + split; [done|]. exists entry. eauto 6.
  - apply keepInView_call_cases in Hc as (? & ? & _ & _ & -> & _).
    by destruct Hkind as [[? [=]] | (? & ? & [=])].
Qed.

Lemma handleKeyDown_editor_calls_witness :
  setActiveFileId (js "17")
    ∈ calls (handleKeyDown exampleOnMatch exampleCache noDocument Enter)
  ∧ ((∃ fileId, setActiveFileId (js "17") = setActiveFileId fileId)
     ∨ (∃ editor tr, setActiveFileId (js "17") = dispatch editor tr))
  ∧ (Enter = Enter ∨ Enter = Space)
  ∧ ∃ entry,
      subscript (files (results exampleOnMatch))
        (focusedIndex exampleOnMatch) = Some entry
      ∧ (setActiveFileId (js "17") = setActiveFileId entry.1
         ∨ ∃ editor tr, exampleCache !! entry.1 = Some editor
                        ∧ setActiveFileId (js "17") = dispatch editor tr).
Proof.
  assert (setActiveFileId (js "17")
            ∈ calls (handleKeyDown exampleOnMatch exampleCache noDocument
                       Enter))
    as Hin by (by apply (list_elem_of_lookup_2 _ 1%nat)).
  assert ((∃ fileId, setActiveFileId (js "17") = setActiveFileId fileId)
          ∨ (∃ editor tr, setActiveFileId (js "17") = dispatch editor tr))
    as Hkind by (left; by exists (js "17")).
  split; [exact Hin|]. split; [exact Hkind|].
  exact (handleKeyDown_editor_calls exampleOnMatch exampleCache noDocument
           Enter _ Hin Hkind).
Defined.

(** X8.  A key press scrolls nothing but the element of the node that
    has the focus in the render it happens in, centred, and only when
    the scroll container is in the document and that element does not
    lie within the part of the container in view. *)
Theorem handleKeyDown_scrolls_focused_element
    (s : Search) (editorCache : gmap FileId EditorView)
    (document : Document) (key : Key)
    (element : Element) (block : ScrollStrategy) :
  elementScrollIntoView element block
    ∈ calls (handleKeyDown s editorCache document key) →
  block = center
  ∧ focusElement s document = Some element
  ∧ ∃ container,
      document (js "sidebar-view-container") = Some container
      ∧ completion (isResultElementWithinView container (Some element))
        = Normal false.
Proof.
  intros [[=] | (i & entry & Hi & He & [Hc|Hc])]%handleKeyDown_call_cases.
  - apply (keySwitch_call_cases _ _ _ i entry) in Hc; [|done..].
    by destruct Hc as [(? & ? & [=] & _)
                      |[[[=] _]|[[[=] _]|(? & ? & [=] & _)]]].
  - apply keepInView_call_cases in Hc
      as (container & el & ? & ? & [= -> ->] & ?). eauto.
Qed.

Lemma handleKeyDown_scrolls_focused_element_witness :
  elementScrollIntoView
    {| offsetTop := 1000; clientHeight := 20; scrollTop := 0 |} center
    ∈ calls (handleKeyDown exampleOnA ∅ exampleBelowView ArrowDown)
  ∧ center = center
  ∧ focusElement exampleOnA exampleBelowView
    = Some {| offsetTop := 1000; clientHeight := 20; scrollTop := 0 |}
  ∧ ∃ container,
      exampleBelowView (js "sidebar-view-container") = Some container
      ∧ completion
          (isResultElementWithinView container
             (Some {| offsetTop := 1000; clientHeight := 20;
                      scrollTop := 0 |}))
        = Normal false.
Proof.
  assert (elementScrollIntoView
            {| offsetTop := 1000; clientHeight := 20; scrollTop := 0 |} center
            ∈ calls (handleKeyDown exampleOnA ∅ exampleBelowView ArrowDown))
    as Hin by (by apply (list_elem_of_lookup_2 _ 2%nat)).
  split; [exact Hin|].
  exact (handleKeyDown_scrolls_focused_element exampleOnA ∅ exampleBelowView
           ArrowDown _ _ Hin).
Defined.

(** ** When a key press returns *)

Lemma completion_bind {A B} (m : Eff A) (k : A → Eff B) :
  completion (m ≫= k)
  = match completion m with
    | Normal a => completion (k a)
    | Throw e => Throw e
    end.
Proof.
  unfold mbind, Eff_bind. by destruct (completion m).
Qed.

Lemma keepInView_without_container (s : Search) (document : Document)
    (entry : FileId * SearchFile) :
  subscript (files (results s)) (focusedIndex s) = Some entry →
  document (js "sidebar-view-container") = None →
  keepInView s document = mret ().
Proof.
  intros He Hc. unfold keepInView, fileAt.
  by rewrite He, bind_deref_Some, Hc.
Qed.

Lemma keySwitch_returns (s : Search) (editorCache : gmap FileId EditorView)
    (key : Key) (entry : FileId * SearchFile) :
  subscript (files (results s)) (focusedIndex s) = Some entry →
  focusInvariant s = true →
  (∀ editor c m,
     key = Enter ∨ key = Space →
     editorCache !! entry.1 = Some editor →
     focusedChildIndex s = Some c →
     subscript (matches entry.2) (Some c) = Some m →
     1 ≤ line m ≤ Z.of_nat (length (doc editor))
     ∧ 0 ≤ index m
     ∧ lineFrom (doc editor) (Z.to_nat (line m - 1)) + index m
         + Z.of_nat (length (pattern s)) ≤ docLength (doc editor)) →
  completion (keySwitch s editorCache key
                (Z.of_nat (length (matches entry.2)))) = Normal ().
Proof.
  intros He Hinv Hline.
  destruct (focusedIndex s) as [i|] eqn:Hi; [|done].
  pose proof (subscript_lt _ _ _ He) as Hrange.
  assert (completion
            (call (setActiveFileId entry.1);;
             if negb (isNull (focusedChildIndex s)) then
               m ← matchAt s (Some i) (focusedChildIndex s);
               match editorCache !! entry.1 with
               | Some editor =>
                   jumpToPattern editor (pattern s) (line m) (index m)
               | None => mret ()
               end
             else mret ()) = Normal () ∨ (key ≠ Enter ∧ key ≠ Space))
    as Hactivate.
  { assert (key = Enter ∨ key = Space ∨ (key ≠ Enter ∧ key ≠ Space))
      as [Hkey|[Hkey|Hkey]] by (destruct key; auto);
      [left | left | by right].
    all: assert (key = Enter ∨ key = Space) as Hkey' by auto;
      clear Hkey; rename Hkey' into Hkey.
    all: rewrite completion_call_bind.
    all: destruct (focusedChildIndex s) as [c|] eqn:Hc; [|done].
    all: cbn [isNull negb]; unfold matchAt, fileAt.
    all: rewrite He, bind_deref_Some.
    all: unfold focusInvariant in Hinv; rewrite Hi, Hc in Hinv.
    all: apply bool_decide_eq_true in Hinv.
    all: rewrite (matchCount_entry _ _ _ He) in Hinv.
    all: destruct (subscript (matches entry.2) (Some c)) as [m|] eqn:Hm;
      [|exfalso; simpl in Hm; rewrite bool_decide_eq_true_2 in Hm by lia;
        apply lookup_ge_None in Hm; lia].
    all: rewrite bind_deref_Some.
    all: destruct (editorCache !! entry.1) as [editor|] eqn:Hed; [|done].
    all: destruct (Hline editor c m Hkey eq_refl eq_refl Hm)
      as (? & ? & ?).
    all: by apply jumpToPattern_returns. }
  unfold keySwitch. rewrite Hi. destruct key; try done.
  - (* ArrowUp *)
    destruct (looseEqNum _ _ && _) eqn:Htop; [done|].
    destruct (focusedChildIndex s) as [c|]; cbn [isNull].
    + by destruct (strictEqNum _ _).
    + rewrite andb_true_r in Htop. simpl in Htop.
      apply bool_decide_eq_false in Htop.
      unfold fileAt. change (toNumber (Some i)) with i.
      destruct (subscript _ (Some (i - 1))) as [previous|] eqn:Hp.
      * rewrite bind_deref_Some. by destruct (_ >? 0).
      * exfalso. simpl in Hp. rewrite bool_decide_eq_true_2 in Hp by lia.
        apply lookup_ge_None in Hp. lia.
  - (* ArrowDown *)
    destruct (_ && _); [done|]. destruct (_ && _); [done|].
    by destruct (looseEqNum _ _).
  - (* ArrowLeft *)
    destruct (negb _); [done|].
    unfold fileAt. by rewrite He, bind_deref_Some.
  - (* ArrowRight *)
    unfold fileAt. rewrite He, bind_deref_Some.
    case_bool_decide; [done|]. by destruct (isNull _).
  - (* Enter *)
    unfold fileAt at 1. rewrite He, bind_deref_Some.
    by destruct Hactivate as [? | [? _]].
  - (* Space *)
    unfold fileAt at 1. rewrite He, bind_deref_Some.
    by destruct Hactivate as [? | [_ ?]].
Qed.

(** X9.  A key press returns without an exception when the focus of
    the render is sound: the focused index is that of a visible file,
    the focus invariant holds, the element of the focused node is in the
    document if the scroll container is, and, for Enter and Space on a
    match of a file that has an editor, the line of the match is a line
    of the editor's document and the selection of the jump, from the
    index of the match over the length of the pattern, lies within that
    document. *)
Theorem handleKeyDown_returns
    (s : Search) (editorCache : gmap FileId EditorView)
    (document : Document) (key : Key) (entry : FileId * SearchFile) :
  subscript (files (results s)) (focusedIndex s) = Some entry →
  focusInvariant s = true →
  (is_Some (document (js "sidebar-view-container")) →
   is_Some (focusElement s document)) →
  (∀ editor c m,
     key = Enter ∨ key = Space →
     editorCache !! entry.1 = Some editor →
     focusedChildIndex s = Some c →
     subscript (matches entry.2) (Some c) = Some m →
     1 ≤ line m ≤ Z.of_nat (length (doc editor))
     ∧ 0 ≤ index m
     ∧ lineFrom (doc editor) (Z.to_nat (line m - 1)) + index m
         + Z.of_nat (length (pattern s)) ≤ docLength (doc editor)) →
  completion (handleKeyDown s editorCache document key) = Normal ().
Proof.
  intros He Hinv Hdoc Hline.
  rewrite (handleKeyDown_defined _ _ _ _ entry He).
  rewrite completion_call_bind, completion_bind.
  rewrite (keySwitch_returns _ _ _ entry) by done.
  destruct (document (js "sidebar-view-container")) as [container|] eqn:Hc.
  - apply keepInView_returns, Hdoc. eauto.
  - by rewrite (keepInView_without_container _ _ entry).
Qed.

Lemma handleKeyDown_returns_witness :
  subscript (files (results exampleOnMatch)) (focusedIndex exampleOnMatch)
  = Some (js "17", exampleA open)
  ∧ focusInvariant exampleOnMatch = true
  ∧ (is_Some (noDocument (js "sidebar-view-container")) →
     is_Some (focusElement exampleOnMatch noDocument))
  ∧ (∀ editor c m,
       Enter = Enter ∨ Enter = Space →
       exampleCache !! (js "17", exampleA open).1 = Some editor →
       focusedChildIndex exampleOnMatch = Some c →
       subscript (matches (js "17", exampleA open).2) (Some c) = Some m →
       1 ≤ line m ≤ Z.of_nat (length (doc editor))
       ∧ 0 ≤ index m
       ∧ lineFrom (doc editor) (Z.to_nat (line m - 1)) + index m
           + Z.of_nat (length (pattern exampleOnMatch))
         ≤ docLength (doc editor))
  ∧ completion (handleKeyDown exampleOnMatch exampleCache noDocument Enter)
    = Normal ().
Proof.
  assert (is_Some (noDocument (js "sidebar-view-container")) →
          is_Some (focusElement exampleOnMatch noDocument)) as Hdoc
    by (by intros [? [=]]).
  assert (∀ editor c m,
            Enter = Enter ∨ Enter = Space →
            exampleCache !! (js "17", exampleA open).1 = Some editor →
            focusedChildIndex exampleOnMatch = Some c →
            subscript (matches (js "17", exampleA open).2) (Some c) = Some m →
            1 ≤ line m ≤ Z.of_nat (length (doc editor))
            ∧ 0 ≤ index m
            ∧ lineFrom (doc editor) (Z.to_nat (line m - 1)) + index m
                + Z.of_nat (length (pattern exampleOnMatch))
              ≤ docLength (doc editor)) as Hline.
  { intros editor c m _ Hed Hc Hm.
    vm_compute in Hed. injection Hed as <-.
    injection Hc as <-. injection Hm as <-.
    split_and!; by vm_compute. }
  split; [reflexivity|]. split; [reflexivity|].
  split; [exact Hdoc|]. split; [exact Hline|].
  exact (handleKeyDown_returns exampleOnMatch exampleCache noDocument Enter
           (js "17", exampleA open) eq_refl eq_refl Hdoc Hline).
Defined.

(** ** ArrowDown and ArrowUp undo each other *)

Lemma withFocus_withFocus (a b c d : nullable) (s : Search) :
  withFocus a b (withFocus c d s) = withFocus a b s.
Proof. done. Qed.

Lemma withFocus_id (s : Search) (a b : nullable) :
  focusedIndex s = a → focusedChildIndex s = b → withFocus a b s = s.
Proof. intros <- <-. by destruct s. Qed.

Lemma keyDown_withFocus (s : Search) (editorCache : gmap FileId EditorView)
    (document : Document) (key : Key) (a b : nullable)
    (entry : FileId * SearchFile) :
  subscript (files (results s)) a = Some entry →
  keyDown editorCache document key (withFocus a b s)
  = after (withFocus a b s)
      (keySwitch (withFocus a b s) editorCache key
         (Z.of_nat (length (matches entry.2)))).
Proof. intros He. by apply keyDown_switch. Qed.

Lemma arrowDown_focus (s : Search) (editorCache : gmap FileId EditorView)
    (document : Document) (i : Z) (entry : FileId * SearchFile) :
  focusedIndex s = Some i →
  subscript (files (results s)) (Some i) = Some entry →
  matches entry.2 ≠ [] →
  focusInvariant s = true →
  focus s ≠ (Some (visibleCount s - 1), Some (matchCount s i - 1)) →
  keyDown editorCache document ArrowDown s
  = match focusedChildIndex s with
    | None => withFocus (Some i) (Some 0) s
    | Some c =>
        if bool_decide (c = matchCount s i - 1)
        then withFocus (Some (i + 1)) None s
        else withFocus (Some i) (Some (c + 1)) s
    end.
Proof.
  intros Hi He Hne Hinv Hbot.
  pose proof (matchCount_entry _ _ _ He) as HM.
  assert (0 < matchCount s i) as Hpos
    by (rewrite HM; destruct (matches entry.2); [done | simpl; lia]).
  rewrite (keyDown_switch _ _ _ _ entry) by by rewrite Hi.
  unfold keySwitch. rewrite Hi, <- HM. unfold focus in Hbot.
  rewrite Hi in Hbot.
  destruct (focusedChildIndex s) as [c|] eqn:Hc; cbn [isNull looseEqNum].
  - fold (visibleCount s).
    case_bool_decide as Hlast; case_bool_decide as Hend; cbn [andb];
      [congruence | by rewrite after_call.. ].
  - rewrite andb_false_r. cbn [andb].
    by rewrite (proj2 (Z.gtb_gt _ 0)), after_call by lia.
Qed.

(** X10.  ArrowUp undoes ArrowDown.  With a sound focus on a file that
    has a match, anywhere but on the last match of the last visible
    file, ArrowDown followed by ArrowUp gives the search state back as
    it was, whether the step goes into the file, along its matches or
    on to the heading of the next file. *)
Theorem arrowDown_then_arrowUp
    (s : Search) (editorCache : gmap FileId EditorView)
    (document document' : Document) (i : Z) (entry : FileId * SearchFile) :
  focusedIndex s = Some i →
  subscript (files (results s)) (Some i) = Some entry →
  matches entry.2 ≠ [] →
  focusInvariant s = true →
  focus s ≠ (Some (visibleCount s - 1), Some (matchCount s i - 1)) →
  keyDown editorCache document ArrowDown s ≠ s
  ∧ keyDown editorCache document' ArrowUp
      (keyDown editorCache document ArrowDown s) = s.
Proof.
  intros Hi He Hne Hinv Hbot.
  rewrite (arrowDown_focus _ _ _ i entry) by done.
  pose proof (matchCount_entry _ _ _ He) as HM.
  pose proof (subscript_lt _ _ _ He) as Hrange.
  assert (0 < matchCount s i) as Hpos
    by (rewrite HM; destruct (matches entry.2); [done | simpl; lia]).
  unfold focusInvariant in Hinv. rewrite Hi in Hinv.
  unfold focus in Hbot. rewrite Hi in Hbot.
  destruct (focusedChildIndex s) as [c|] eqn:Hc.
  - apply bool_decide_eq_true in Hinv. case_bool_decide as Hend.
    + assert (i + 1 < visibleCount s) as Hnext.
      { unfold visibleCount in *.
        destruct (decide (i = Z.of_nat (length (files (results s))) - 1));
          [congruence | lia]. }
      split.
      { intros Heq%(f_equal focusedIndex). simpl in Heq.
        rewrite Hi in Heq. injection Heq. lia. }
      destruct (visible_entry s (i + 1)) as [next Hn]; [lia|].
      rewrite (keyDown_withFocus _ _ _ _ _ _ next) by done.
      unfold keySwitch; cbn [focusedIndex focusedChildIndex withFocus
                              looseEqNum isNull].
      rewrite bool_decide_eq_false_2 by lia. cbn [andb].
      unfold fileAt. cbn [focusedIndex withFocus results].
      change (toNumber (Some (i + 1))) with (i + 1).
      replace (i + 1 - 1) with i by lia.
      rewrite He, bind_deref_Some.
      rewrite (proj2 (Z.gtb_gt _ 0)), after_call by lia.
      cbn [reduce]. rewrite withFocus_withFocus.
      apply withFocus_id; [done|]. rewrite Hc. f_equal. lia.
    + split.
      { intros Heq%(f_equal focusedChildIndex). simpl in Heq.
        rewrite Hc in Heq. injection Heq. lia. }
      rewrite (keyDown_withFocus _ _ _ _ _ _ entry) by done.
      unfold keySwitch; cbn [focusedIndex focusedChildIndex withFocus
                              looseEqNum isNull strictEqNum].
      rewrite andb_false_r, bool_decide_eq_false_2, after_call by lia.
      cbn [reduce]. rewrite withFocus_withFocus.
      apply withFocus_id; [done|]. rewrite Hc.
      change (toNumber (Some (c + 1))) with (c + 1). f_equal. lia.
  - split.
    { intros Heq%(f_equal focusedChildIndex). simpl in Heq. congruence. }
    rewrite (keyDown_withFocus _ _ _ _ _ _ entry) by done.
    unfold keySwitch; cbn [focusedIndex focusedChildIndex withFocus
                            looseEqNum isNull strictEqNum].
    rewrite andb_false_r, bool_decide_eq_true_2, after_call by done.
    cbn [reduce]. rewrite withFocus_withFocus. by apply withFocus_id.
Qed.

Lemma arrowDown_then_arrowUp_witness :
  focusedIndex exampleOnMatch = Some 0
  ∧ subscript (files (results exampleOnMatch)) (Some 0)
    = Some (js "17", exampleA open)
  ∧ matches (js "17", exampleA open).2 ≠ []
  ∧ focusInvariant exampleOnMatch = true
  ∧ focus exampleOnMatch
    ≠ (Some (visibleCount exampleOnMatch - 1),
       Some (matchCount exampleOnMatch 0 - 1))
  ∧ keyDown ∅ noDocument ArrowDown exampleOnMatch ≠ exampleOnMatch
  ∧ keyDown ∅ noDocument ArrowUp
      (keyDown ∅ noDocument ArrowDown exampleOnMatch) = exampleOnMatch.
Proof.
  split; [reflexivity|]. split; [reflexivity|]. split; [discriminate|].
  split; [reflexivity|]. split; [discriminate|].
  apply (arrowDown_then_arrowUp exampleOnMatch ∅ noDocument noDocument 0
           (js "17", exampleA open));
    [reflexivity | reflexivity | discriminate | reflexivity | discriminate].
Defined.

Lemma arrowUp_focus (s : Search) (editorCache : gmap FileId EditorView)
    (document : Document) (i : Z) (entry : FileId * SearchFile) :
  focusedIndex s = Some i →
  subscript (files (results s)) (Some i) = Some entry →
  focus s ≠ (Some 0, None) →
  (focusedChildIndex s = None → 0 < matchCount s (i - 1)) →
  keyDown editorCache document ArrowUp s
  = match focusedChildIndex s with
    | None => withFocus (Some (i - 1)) (Some (matchCount s (i - 1) - 1)) s
    | Some c =>
        if bool_decide (c = 0)
        then withFocus (Some i) None s
        else withFocus (Some i) (Some (c - 1)) s
    end.
Proof.
  intros Hi He Htop Hprev.
  unfold focus in Htop. rewrite Hi in Htop.
  rewrite (keyDown_switch s _ _ ArrowUp entry) by by rewrite Hi.
  unfold keySwitch. rewrite Hi.
  destruct (focusedChildIndex s) as [c|] eqn:Hc;
    cbn [isNull looseEqNum strictEqNum].
  - rewrite andb_false_r. by case_bool_decide; rewrite after_call.
  - specialize (Hprev eq_refl).
    destruct (matchCount_pos _ _ Hprev) as (previous & Hp & HMp).
    rewrite bool_decide_eq_false_2 by (intros ->; congruence).
    cbn [andb]. unfold fileAt. change (toNumber (Some i)) with i.
    rewrite Hp, bind_deref_Some.
    rewrite (proj2 (Z.gtb_gt _ 0)), after_call by lia.
    cbn [reduce]. by rewrite HMp.
Qed.

(** X11.  ArrowDown undoes ArrowUp.  With a sound focus anywhere but on
    the heading of the first visible file, and, when a heading is
    focused, a match in the file before it, ArrowUp followed by
    ArrowDown gives the search state back as it was. *)
Theorem arrowUp_then_arrowDown
    (s : Search) (editorCache : gmap FileId EditorView)
    (document document' : Document) (i : Z) (entry : FileId * SearchFile) :
  focusedIndex s = Some i →
  subscript (files (results s)) (Some i) = Some entry →
  focusInvariant s = true →
  focus s ≠ (Some 0, None) →
  (focusedChildIndex s = None → 0 < matchCount s (i - 1)) →
  keyDown editorCache document ArrowUp s ≠ s
  ∧ keyDown editorCache document' ArrowDown
      (keyDown editorCache document ArrowUp s) = s.
Proof.
  intros Hi He Hinv Htop Hprev.
  rewrite (arrowUp_focus _ _ _ i entry) by done.
  pose proof (matchCount_entry _ _ _ He) as HM.
  pose proof (subscript_lt _ _ _ He) as Hrange.
  unfold focusInvariant in Hinv. rewrite Hi in Hinv.
  destruct (focusedChildIndex s) as [c|] eqn:Hc.
  - apply bool_decide_eq_true in Hinv.
    case_bool_decide as Hzero.
    + split.
      { intros Heq%(f_equal focusedChildIndex). simpl in Heq. congruence. }
      rewrite (keyDown_withFocus _ _ _ _ _ _ entry) by done.
      unfold keySwitch; cbn [focusedIndex focusedChildIndex withFocus
                              looseEqNum isNull].
      rewrite andb_false_r. cbn [andb].
      rewrite (proj2 (Z.gtb_gt _ 0)), after_call by lia.
      cbn [reduce]. rewrite withFocus_withFocus.
      apply withFocus_id; [done|]. by rewrite Hc, Hzero.
    + split.
      { intros Heq%(f_equal focusedChildIndex). simpl in Heq.
        rewrite Hc in Heq. injection Heq. lia. }
      rewrite (keyDown_withFocus _ _ _ _ _ _ entry) by done.
      unfold keySwitch; cbn [focusedIndex focusedChildIndex withFocus
                              looseEqNum isNull].
      rewrite (bool_decide_eq_false_2 (c - 1 = _)) by lia.
      rewrite andb_false_r. cbn [andb].
      rewrite after_call. cbn [reduce]. rewrite withFocus_withFocus.
      apply withFocus_id; [done|]. rewrite Hc.
      change (toNumber (Some (c - 1))) with (c - 1). f_equal. lia.
  - specialize (Hprev eq_refl).
    destruct (matchCount_pos _ _ Hprev) as (previous & Hp & HMp).
    pose proof (subscript_lt _ _ _ Hp) as Hprange.
    split.
    { intros Heq%(f_equal focusedChildIndex). simpl in Heq. congruence. }
    rewrite (keyDown_withFocus _ _ _ _ _ _ previous) by done.
    unfold keySwitch; cbn [focusedIndex focusedChildIndex withFocus
                            looseEqNum isNull results].
    rewrite (bool_decide_eq_false_2 (i - 1 = _)) by lia. cbn [andb].
    rewrite HMp, bool_decide_eq_true_2, after_call by done.
    cbn [reduce]. rewrite withFocus_withFocus.
    apply withFocus_id; [|done]. rewrite Hi.
    change (toNumber (Some (i - 1))) with (i - 1). f_equal. lia.
Qed.

Lemma arrowUp_then_arrowDown_witness :
  focusedIndex exampleOnMatch = Some 0
  ∧ subscript (files (results exampleOnMatch)) (Some 0)
    = Some (js "17", exampleA open)
  ∧ focusInvariant exampleOnMatch = true
  ∧ focus exampleOnMatch ≠ (Some 0, None)
  ∧ (focusedChildIndex exampleOnMatch = None →
     0 < matchCount exampleOnMatch (0 - 1))
  ∧ keyDown ∅ noDocument ArrowUp exampleOnMatch ≠ exampleOnMatch
  ∧ keyDown ∅ noDocument ArrowDown
      (keyDown ∅ noDocument ArrowUp exampleOnMatch) = exampleOnMatch.
Proof.
  split; [reflexivity|]. split; [reflexivity|]. split; [reflexivity|].
  split; [discriminate|]. split; [discriminate|].
  apply (arrowUp_then_arrowDown exampleOnMatch ∅ noDocument noDocument 0
           (js "17", exampleA open));
    [reflexivity | reflexivity | reflexivity | discriminate | discriminate].
Defined.

(** ** Click on a heading *)

(** X12.  Every heading handler the render installs belongs to a
    visible file: clicking it makes that file the active one and asks
    for the focus on its heading, under the index at which the keyboard
    handler of the next render finds the same file. *)
Theorem headingClicks_focus (s : Search) (h : Eff ()) :
  h ∈ headingClicks s →
  ∃ (i : nat) entry,
    files (results s) !! i = Some entry
    ∧ h = headingClick entry.1 i
    ∧ setActiveFileId entry.1 ∈ calls h
    ∧ focusedChildIndex (after s h) = None
    ∧ completion (fileAt (after s h) (focusedIndex (after s h)))
      = Normal entry.
Proof.
  unfold headingClicks.
  destruct (resultsShown s); [|by intros ?%elem_of_nil].
  intros (i & entry & -> & Hentry)%elem_of_lookup_imap.
  exists i, entry. split_and!; [done | done | | done |].
  - unfold headingClick. rewrite calls_call_bind. apply elem_of_cons; by left.
  - unfold headingClick. rewrite after_call_bind, after_call.
    cbn [reduce withFocus focusedIndex results].
    unfold fileAt. cbn [results withFocus subscript].
    by rewrite bool_decide_eq_true_2, Nat2Z.id, Hentry by lia.
Qed.

Lemma headingClicks_focus_witness :
  headingClick (js "42") 1 ∈ headingClicks exampleOnA
  ∧ ∃ (i : nat) entry,
      files (results exampleOnA) !! i = Some entry
      ∧ headingClick (js "42") 1 = headingClick entry.1 i
      ∧ setActiveFileId entry.1 ∈ calls (headingClick (js "42") 1)
      ∧ focusedChildIndex (after exampleOnA (headingClick (js "42") 1))
        = None
      ∧ completion
          (fileAt (after exampleOnA (headingClick (js "42") 1))
             (focusedIndex (after exampleOnA (headingClick (js "42") 1))))
        = Normal entry.
Proof.
  assert (headingClick (js "42") 1 ∈ headingClicks exampleOnA) as Hin
    by (by apply (list_elem_of_lookup_2 _ 1%nat)).
  split; [exact Hin|].
  exact (headingClicks_focus exampleOnA _ Hin).
Defined.

(** ** More on the debounced search *)

Lemma reachable_step (h : Hooks) (e : Event) :
  reachable h → reachable (step h e).
Proof.
  intros (pattern & events & ->). exists pattern, (events ++ [e]).
  by rewrite run_snoc.
Qed.

(** X13.  At every moment a pending timer is the only one, its callback
    has closed over the pattern the context holds now, the cleanup the
    effect registered is the one that clears it, and the component is
    mounted. *)
Theorem pending_timer_is_current (h : Hooks) (t : Timer) :
  reachable h →
  t ∈ timers h →
  timers h = [t]
  ∧ timerPattern t = searchPattern h
  ∧ cleanup h = Some (timerId t)
  ∧ isMounted h = true ∧ inputRef h = true.
Proof.
  intros ([Hnil | (id & Ht & Hc)] & _ & Href & Hoff)%wf_reachable Hin.
  - rewrite Hnil in Hin. by apply elem_of_nil in Hin.
  - rewrite Ht in Hin. apply list_elem_of_singleton in Hin as ->.
    rewrite <- Href.
    destruct (inputRef h); [done|].
    destruct (Hoff eq_refl) as [Hnil _]. congruence.
Qed.

Lemma pending_timer_is_current_witness :
  reachable exampleTyped
  ∧ {| timerId := 0; timerPattern := js "TODO" |} ∈ timers exampleTyped
  ∧ timers exampleTyped = [{| timerId := 0; timerPattern := js "TODO" |}]
  ∧ timerPattern {| timerId := 0; timerPattern := js "TODO" |}
    = searchPattern exampleTyped
  ∧ cleanup exampleTyped
    = Some (timerId {| timerId := 0; timerPattern := js "TODO" |})
  ∧ isMounted exampleTyped = true ∧ inputRef exampleTyped = true.
Proof.
  assert (reachable exampleTyped) as Hreach
    by (by exists [], [Mount; SetSearch (js "TODO")]).
  assert ({| timerId := 0; timerPattern := js "TODO" |} ∈ timers exampleTyped)
    as Hin by (by apply (list_elem_of_lookup_2 _ 0%nat)).
  split; [exact Hreach|]. split; [exact Hin|].
  exact (pending_timer_is_current exampleTyped _ Hreach Hin).
Defined.

Lemma searches_step (h : Hooks) (e : Event) :
  wf h →
  searches (step h e) = searches h
  ∨ (searches (step h e) = searches h ++ [searchPattern h]
     ∧ nonEmpty (searchPattern h) = true).
Proof.
  intros Hwf. destruct e as [|pattern|id|].
  - left. destruct h as [m sr r p ts n c ss]; simpl.
    unfold effect, runCleanup; simpl. by destruct c, m.
  - left. apply step_SetSearch_fields.
  - hooks_cases h Hwf; [by left|].
    destruct (decide (tid = id)) as [->|Hne].
    + rewrite find_timer_self. unfold onTimeout; simpl.
      destruct (nonEmpty p) eqn:Hp; [|by left]. destruct m; simpl; eauto.
    + rewrite find_timer_other by done. by left.
  - left. destruct h as [m sr r p ts n c ss]; simpl.
    unfold runCleanup; simpl. by destruct c.
Qed.

(** X14.  No run of the component ever searches for a blank pattern:
    whatever is typed, and however mounts, unmounts and timer expiries
    interleave, every search that runs is for a pattern with a
    character that is not white space. *)
Theorem searches_nonblank (h : Hooks) (p : jsstring) :
  reachable h →
  p ∈ searches h →
  nonEmpty p = true.
Proof.
  intros (pattern & events & ->). revert p.
  induction events as [|e events IH] using rev_ind;
    [by intros p ?%elem_of_nil|].
  intros p. rewrite run_snoc.
  destruct (searches_step (run (initialHooks pattern) events) e)
    as [-> | [-> Hne]]; [by apply wf_run, wf_initial | apply IH |].
  intros [? | ->%list_elem_of_singleton]%elem_of_app; [by apply IH | done].
Qed.

Lemma searches_nonblank_witness :
  reachable (step exampleTyped (Timeout 0))
  ∧ js "TODO" ∈ searches (step exampleTyped (Timeout 0))
  ∧ nonEmpty (js "TODO") = true.
Proof.
  assert (reachable (step exampleTyped (Timeout 0))) as Hreach
    by (by exists [], [Mount; SetSearch (js "TODO"); Timeout 0%nat]).
  assert (js "TODO" ∈ searches (step exampleTyped (Timeout 0))) as Hin
    by (by apply (list_elem_of_lookup_2 _ 0%nat)).
  split; [exact Hreach|]. split; [exact Hin|].
  exact (searches_nonblank _ _ Hreach Hin).
Defined.

Lemma searching_pending_step (h : Hooks) (e : Event) :
  wf h →
  (isSearching h = true → timers h ≠ []) →
  isSearching (step h e) = true → timers (step h e) ≠ [].
Proof.
  intros Hwf Hpending.
  destruct e as [|pattern|id|]; hooks_cases h Hwf;
    unfold effect, runCleanup, onTimeout; simpl.
  6: { destruct (decide (tid = id)) as [->|Hne]; [|done].
       simpl. destruct (nonEmpty p && m) eqn:Hfire; simpl; [done|].
       intros Hs. specialize (Hsr Hs).
       apply andb_false_iff in Hfire as [?| ->]; [congruence|].
       by destruct Hoff as [[=] _]. }
  all: repeat match goal with
       | |- context [match ?x with _ => _ end] => destruct x eqn:?; simpl
       | |- context [if ?x then _ else _] => destruct x eqn:?; simpl
       end;
    rewrite ?filter_timer_self, ?filter_nil; simpl; try done;
    try (intros; by intros ?%app_eq_nil).
  all: try (intros; simplify_eq; done).
  all: by destruct Hoff as [[=] _].
Qed.

Lemma searching_pending (h : Hooks) :
  reachable h → isSearching h = true → timers h ≠ [].
Proof.
  intros (pattern & events & ->).
  induction events as [|e events IH] using rev_ind; [done|].
  rewrite run_snoc. apply searching_pending_step; [|done].
  apply wf_run, wf_initial.
Qed.

(** X15.  "Searching..." is never shown in vain: whenever the component
    reports that it is searching, the pattern is not blank and the timer
    of that pattern is pending, and when this timer expires the search
    runs for the pattern, once, and the report is withdrawn. *)
Theorem searching_resolves (h : Hooks) :
  reachable h →
  isSearching h = true →
  nonEmpty (searchPattern h) = true
  ∧ ∃ id,
      timers h = [{| timerId := id; timerPattern := searchPattern h |}]
      ∧ searches (step h (Timeout id)) = searches h ++ [searchPattern h]
      ∧ isSearching (step h (Timeout id)) = false
      ∧ timers (step h (Timeout id)) = [].
Proof.
  intros Hreach Hs.
  pose proof (searching_pending h Hreach Hs) as Hpending.
  pose proof (wf_reachable h Hreach) as Hwf.
  hooks_cases h Hwf; [done|].
  specialize (Hsr eq_refl). split; [done|]. exists tid. split; [done|].
  destruct m; [|by destruct Hoff as [[=] _]].
  rewrite find_timer_self. unfold onTimeout; simpl.
  rewrite Hsr; simpl. by rewrite filter_timer_self.
Qed.

Lemma searching_resolves_witness :
  reachable exampleTyped
  ∧ isSearching exampleTyped = true
  ∧ nonEmpty (searchPattern exampleTyped) = true
  ∧ ∃ id,
      timers exampleTyped
      = [{| timerId := id; timerPattern := searchPattern exampleTyped |}]
      ∧ searches (step exampleTyped (Timeout id))
        = searches exampleTyped ++ [searchPattern exampleTyped]
      ∧ isSearching (step exampleTyped (Timeout id)) = false
      ∧ timers (step exampleTyped (Timeout id)) = [].
Proof.
  assert (reachable exampleTyped) as Hreach
    by (by exists [], [Mount; SetSearch (js "TODO")]).
  split; [exact Hreach|]. split; [reflexivity|].
  exact (searching_resolves exampleTyped Hreach eq_refl).
Defined.

Lemma unmounted_step (h : Hooks) (e : Event) :
  e ≠ Mount →
  inputRef h = false → isSearching h = false →
  inputRef (step h e) = false ∧ isSearching (step h e) = false
  ∧ searches (step h e) = searches h.
Proof.
  intros He Href Hs. destruct h as [m sr r p ts n c ss]; simpl in *; subst.
  destruct e as [|pattern|id|]; [done | | |]; simpl.
  - by rewrite orb_true_r.
  - destruct (list_find _ _) as [[k t]|]; [|done].
    unfold onTimeout; simpl. by rewrite andb_false_r.
  - unfold runCleanup; simpl. by destruct c.
Qed.

(** X16.  Unmounting ends the search for good: from any state, once the
    component is unmounted and until it is mounted again, no search
    runs and "searching" is not reported, whatever timers expire and
    whatever pattern the context is given. *)
Theorem unmount_cancels (h : Hooks) (events : list Event) :
  Mount ∉ events →
  searches (run (step h Unmount) events) = searches h
  ∧ isSearching (run (step h Unmount) events) = false
  ∧ inputRef (run (step h Unmount) events) = false.
Proof.
  intros Hevents.
  induction events as [|e events IH] using rev_ind.
  - destruct h as [m sr r p ts n c ss]; simpl.
    unfold runCleanup; simpl. by destruct c.
  - rewrite run_snoc. apply not_elem_of_app in Hevents as [Hevents He].
    destruct (IH Hevents) as (Hsearches & Hs & Href).
    destruct (unmounted_step (run (step h Unmount) events) e)
      as (? & ? & ->); [|done..].
    intros ->. apply He, list_elem_of_singleton. done.
Qed.

Lemma unmount_cancels_witness :
  (Mount ∉ [Timeout 0%nat; SetSearch (js "x"); Timeout 1%nat])
  ∧ searches (run (step exampleTyped Unmount)
                [Timeout 0%nat; SetSearch (js "x"); Timeout 1%nat])
    = searches exampleTyped
  ∧ isSearching (run (step exampleTyped Unmount)
                   [Timeout 0%nat; SetSearch (js "x"); Timeout 1%nat])
    = false
  ∧ inputRef (run (step exampleTyped Unmount)
                [Timeout 0%nat; SetSearch (js "x"); Timeout 1%nat])
    = false.
Proof.
  assert (Mount ∉ [Timeout 0%nat; SetSearch (js "x"); Timeout 1%nat])
    as Hevents.
  { intros Hin. repeat (apply elem_of_cons in Hin as [?|Hin]; [done|]).
    by apply elem_of_nil in Hin. }
  split; [exact Hevents|].
  exact (unmount_cancels exampleTyped _ Hevents).
Defined.

(** ** The tab reducer *)

Section TabReducer.
Context {Rest : Type}.
Implicit Types (state : Tabs.State Rest) (a before after : list FileId).
Implicit Types (id : FileId) (v : Tabs.Value).

Lemma findIndex_absent a id : id ∉ a → Tabs.findIndex a id = -1.
Proof.
  intros Hid. unfold Tabs.findIndex.
  destruct (list_find _ a) as [[i x]|] eqn:Hfind; [|done].
  apply list_find_Some in Hfind as (Hx%list_elem_of_lookup_2 & -> & _).
  done.
Qed.

Lemma findIndex_first before after id :
  id ∉ before →
  Tabs.findIndex (before ++ id :: after) id = Z.of_nat (length before).
Proof.
  intros Hid. unfold Tabs.findIndex.
  assert (list_find (λ fileId, fileId = id) (before ++ id :: after)
          = Some (length before, id)) as ->; [|done].
  apply list_find_Some. split_and!; [by apply list_lookup_middle | done |].
  intros j y Hy Hj ->. rewrite lookup_app_l in Hy by done.
  by apply list_elem_of_lookup_2 in Hy.
Qed.

Lemma slice_remove before after id :
  Tabs.slice (before ++ id :: after) 0 (Some (Z.of_nat (length before)))
  ++ Tabs.slice (before ++ id :: after) (Z.of_nat (length before) + 1) None
  = before ++ after.
Proof.
  cbv [Tabs.slice default from_option Datatypes.id].
  rewrite length_app; cbn [length].
  repeat match goal with
         | |- context [?x <? 0] => rewrite (proj2 (Z.ltb_ge x 0)) by lia
         end.
  f_equal.
  - replace (Z.to_nat _) with (length before) by lia.
    replace (Z.to_nat (Z.min 0 _)) with 0%nat by lia.
    by rewrite drop_0, take_app_length.
  - replace (Z.to_nat (Z.min (Z.of_nat (length before) + 1) _))
      with (S (length before)) by lia.
    rewrite (cons_middle id before after), app_assoc.
    rewrite (drop_app_length' (before ++ [id]) after)
      by (rewrite length_app; simpl; lia).
    apply take_ge. lia.
Qed.

Lemma item_neighbour before after :
  (if Z.of_nat (length (before ++ after)) >? 0 then
     if Z.of_nat (length before) =? 0
     then Tabs.item (before ++ after) (Z.of_nat (length before))
     else Tabs.item (before ++ after) (Z.of_nat (length before) - 1)
   else Tabs.null)
  = Tabs.neighbour before after.
Proof.
  unfold Tabs.neighbour, Tabs.item.
  destruct before as [|x before _] using rev_ind.
  - by destruct after as [|y after].
  - rewrite last_snoc, !length_app. cbn [length].
    rewrite (proj2 (Z.gtb_gt _ 0)), (proj2 (Z.eqb_neq _ 0)) by lia.
    rewrite bool_decide_eq_true_2 by lia.
    replace (Z.to_nat _) with (length before) by lia.
    rewrite <- app_assoc. cbn [app].
    by rewrite (list_lookup_middle before after x (length before)).
Qed.

Lemma multiCloseStep_absent a v id :
  id ∉ a → Tabs.multiCloseStep (a, v) id = (a, v).
Proof.
  intros Hid. unfold Tabs.multiCloseStep. by rewrite findIndex_absent.
Qed.

Lemma multiCloseStep_first before after v id :
  id ∉ before →
  Tabs.multiCloseStep (before ++ id :: after, v) id
  = (before ++ after,
     if Tabs.strictEq v id then Tabs.neighbour before after else v).
Proof.
  intros Hid. unfold Tabs.multiCloseStep.
  rewrite findIndex_first by done.
  rewrite (proj2 (Z.eqb_neq _ (-1))) by lia. cbn [negb].
  rewrite slice_remove. destruct (Tabs.strictEq v id); [|done].
  rewrite <- item_neighbour. by destruct (_ >? 0).
Qed.

Lemma reducer_close_tab state id :
  Tabs.reducer state (Tabs.close_tab id)
  = inl {| Tabs.tabList :=
             (Tabs.multiCloseStep
                (Tabs.tabList state, Tabs.activeFileId state) id).1;
           Tabs.activeFileId :=
             (Tabs.multiCloseStep
                (Tabs.tabList state, Tabs.activeFileId state) id).2;
           Tabs.rest := Tabs.rest state |}.
Proof.
  unfold Tabs.reducer, Tabs.multiCloseStep.
  destruct (negb _); [|done].
  destruct (Tabs.strictEq _ _); [|done]. by destruct (_ >? 0).
Qed.

Lemma state_eta state :
  {| Tabs.tabList := Tabs.tabList state;
     Tabs.activeFileId := Tabs.activeFileId state;
     Tabs.rest := Tabs.rest state |} = state.
Proof. by destruct state. Qed.

(** X17.  Closing a tab that is open takes its first occurrence out of
    the tab list and keeps the other tabs in their order.  If it was the
    active file, the tab before it becomes active, or the tab after it
    when it was the first, or none when it was the only tab; otherwise
    the active file stays. *)
Theorem close_tab_removes state before after id :
  Tabs.tabList state = before ++ id :: after →
  id ∉ before →
  Tabs.reducer state (Tabs.close_tab id)
  = inl {| Tabs.tabList := before ++ after;
           Tabs.activeFileId :=
             if Tabs.strictEq (Tabs.activeFileId state) id
             then Tabs.neighbour before after
             else Tabs.activeFileId state;
           Tabs.rest := Tabs.rest state |}.
Proof.
  intros Htabs Hid.
  by rewrite reducer_close_tab, Htabs, multiCloseStep_first.
Qed.

(** X18.  Closing a tab that is not open leaves the state as it is. *)
Theorem close_tab_absent state id :
  id ∉ Tabs.tabList state →
  Tabs.reducer state (Tabs.close_tab id) = inl state.
Proof.
  intros Hid.
  rewrite reducer_close_tab, multiCloseStep_absent by done.
  cbn [fst snd]. by rewrite state_eta.
Qed.

(** X19.  ['multi_close_tab'] does what closing the tabs one after the
    other with ['close_tab'] does, in the order of the list. *)
Theorem multi_close_tab_each state (ids : list FileId) :
  Tabs.reducer state (Tabs.multi_close_tab ids)
  = Tabs.reduceAll state (Tabs.close_tab <$> ids).
Proof.
  unfold Tabs.reduceAll. revert state.
  induction ids as [|id ids IH]; intros state.
  - cbn. by rewrite state_eta.
  - rewrite fmap_cons. cbn [foldl]. rewrite reducer_close_tab.
    rewrite <- IH. cbn [Tabs.reducer foldl Tabs.tabList Tabs.activeFileId
                         Tabs.rest].
    by rewrite <- surjective_pairing.
Qed.

End TabReducer.

Lemma close_tab_removes_witness :
  Tabs.tabList Tabs.exampleTabs = [js "a"] ++ js "b" :: [js "c"]
  ∧ (js "b" ∉ [js "a"])
  ∧ Tabs.reducer Tabs.exampleTabs (Tabs.close_tab (js "b"))
    = inl {| Tabs.tabList := [js "a"] ++ [js "c"];
             Tabs.activeFileId :=
               if Tabs.strictEq (Tabs.activeFileId Tabs.exampleTabs) (js "b")
               then Tabs.neighbour [js "a"] [js "c"]
               else Tabs.activeFileId Tabs.exampleTabs;
             Tabs.rest := Tabs.rest Tabs.exampleTabs |}.
Proof.
  assert (js "b" ∉ [js "a"]) as Hid
    by (by intros [=]%list_elem_of_singleton).
  split; [reflexivity|]. split; [exact Hid|].
  exact (close_tab_removes Tabs.exampleTabs [js "a"] [js "c"] (js "b")
           eq_refl Hid).
Defined.

Lemma close_tab_absent_witness :
  (js "d" ∉ Tabs.tabList Tabs.exampleTabs)
  ∧ Tabs.reducer Tabs.exampleTabs (Tabs.close_tab (js "d"))
    = inl Tabs.exampleTabs.
Proof.
  assert (js "d" ∉ Tabs.tabList Tabs.exampleTabs) as Hid.
  { intros Hin. repeat (apply elem_of_cons in Hin as [[=]|Hin]).
    by apply elem_of_nil in Hin. }
  split; [exact Hid|].
  exact (close_tab_absent Tabs.exampleTabs (js "d") Hid).
Defined.

Lemma filter_all {A} (P : A → Prop) `{∀ x, Decision (P x)} (l : list A) :
  (∀ x, x ∈ l → P x) → filter P l = l.
Proof.
  induction l as [|x l IH]; intros HP; [done|].
  rewrite filter_cons_True by (apply HP, elem_of_cons; by left).
  f_equal. apply IH. intros y ?. apply HP, elem_of_cons; by right.
Qed.

Section TabInvariants.
Context {Rest : Type}.
Implicit Types (state : Tabs.State Rest) (a before after : list FileId).
Implicit Types (id : FileId) (v : Tabs.Value) (r : Rest).

Lemma neighbour_open before after r :
  Tabs.activeIsOpen
    (Tabs.MkState (before ++ after) (Tabs.neighbour before after) r).
Proof.
  unfold Tabs.activeIsOpen, Tabs.neighbour; simpl.
  destruct (last before) as [x|] eqn:Hlast.
  - apply elem_of_app; left. by apply last_Some_elem_of.
  - destruct after as [|y after]; [done|].
    apply elem_of_app; right. apply elem_of_cons; by left.
Qed.

Lemma strictEq_false_ne v id x :
  Tabs.strictEq v id = false → v = Tabs.str x → x ≠ id.
Proof. intros H ->. simpl in H. by apply bool_decide_eq_false in H. Qed.

Lemma multiCloseStep_activeIsOpen a v id r :
  Tabs.activeIsOpen (Tabs.MkState a v r) →
  Tabs.activeIsOpen
    (Tabs.MkState (Tabs.multiCloseStep (a, v) id).1
       (Tabs.multiCloseStep (a, v) id).2 r).
Proof.
  intros Hopen. destruct (decide (id ∈ a)) as [Hin|Hin];
    [|by rewrite multiCloseStep_absent].
  apply list_elem_of_split_l in Hin as (before & after & -> & Hid).
  rewrite multiCloseStep_first by done. cbn [fst snd].
  destruct (Tabs.strictEq v id) eqn:Heq; [apply neighbour_open|].
  unfold Tabs.activeIsOpen in *; simpl in *.
  destruct v as [x| |]; [|done..].
  pose proof (strictEq_false_ne _ _ x Heq eq_refl).
  apply elem_of_app in Hopen as [?|[?|?]%elem_of_cons];
    [apply elem_of_app; by left | done | apply elem_of_app; by right].
Qed.

Lemma multiCloseStep_NoDup a v id :
  NoDup a →
  (Tabs.multiCloseStep (a, v) id).1 = filter (λ fileId, fileId ≠ id) a.
Proof.
  intros Hdup. destruct (decide (id ∈ a)) as [Hin|Hin].
  - apply list_elem_of_split_l in Hin as (before & after & -> & Hid).
    rewrite multiCloseStep_first by done. cbn [fst].
    apply NoDup_app in Hdup as (_ & Hdisj & [Hafter _]%NoDup_cons).
    rewrite filter_app, filter_cons_False by (by intros []).
    f_equal; symmetry; apply filter_all; by intros x Hx ->.
  - rewrite multiCloseStep_absent by done. cbn [fst].
    symmetry; apply filter_all. congruence.
Qed.

(** X20.  Opening and closing tabs keeps the active file among the open
    tabs: when the active file is one of the tabs or there is none, the
    same holds after ['open_tab'], ['close_tab'] and ['multi_close_tab'],
    none of which throws; the active file never becomes [undefined]. *)
Theorem activeIsOpen_kept state (action : Tabs.Action) :
  Tabs.activeIsOpen state →
  Tabs.opensOrCloses action = true →
  ∃ state', Tabs.reducer state action = inl state'
            ∧ Tabs.activeIsOpen state'
            ∧ Tabs.activeFileId state' ≠ Tabs.undefined
            ∧ Tabs.rest state' = Tabs.rest state.
Proof.
  intros Hopen Haction.
  assert (∀ state', Tabs.activeIsOpen state' →
                    Tabs.activeFileId state' ≠ Tabs.undefined) as Hdef.
  { intros state'. unfold Tabs.activeIsOpen.
    by destruct (Tabs.activeFileId state'). }
  destruct state as [a v r].
  destruct action as [| |id|id|ids|]; try done.
  - (* open_tab *)
    cbn [Tabs.reducer Tabs.tabList Tabs.activeFileId Tabs.rest].
    case_bool_decide as Hin; cbn [negb]; eexists;
      (split; [reflexivity|]); unfold Tabs.activeIsOpen; simpl;
      (split_and!; [|done..]); [done|].
    apply elem_of_app; right. by apply list_elem_of_singleton.
  - (* close_tab *)
    rewrite reducer_close_tab. eexists. split; [reflexivity|].
    pose proof (multiCloseStep_activeIsOpen a v id r Hopen) as H.
    split_and!; [exact H | exact (Hdef _ H) | done].
  - (* multi_close_tab *)
    cbn [Tabs.reducer Tabs.tabList Tabs.activeFileId Tabs.rest].
    eexists. split; [reflexivity|].
    assert (Tabs.activeIsOpen
              (Tabs.MkState (foldl Tabs.multiCloseStep (a, v) ids).1
                 (foldl Tabs.multiCloseStep (a, v) ids).2 r)) as H;
      [|split_and!; [exact H | exact (Hdef _ H) | done]].
    revert a v Hopen. induction ids as [|id ids IH]; intros a v Hopen;
      [done|].
    cbn [foldl].
    destruct (Tabs.multiCloseStep (a, v) id) as [a' v'] eqn:Hstep.
    apply IH; [done|].
    pose proof (multiCloseStep_activeIsOpen a v id r Hopen) as H.
    by rewrite Hstep in H.
Qed.

(** X21.  When no tab is listed twice, ['multi_close_tab'] leaves
    exactly the tabs that are not among the ids to delete, in their
    order, and no tab is listed twice afterwards. *)
Theorem multi_close_tab_filter state (ids : list FileId) :
  NoDup (Tabs.tabList state) →
  ∃ state',
    Tabs.reducer state (Tabs.multi_close_tab ids) = inl state'
    ∧ Tabs.tabList state'
      = filter (λ fileId, fileId ∉ ids) (Tabs.tabList state)
    ∧ NoDup (Tabs.tabList state').
Proof.
  intros Hdup. eexists. split; [reflexivity|].
  cbn [Tabs.tabList]. destruct state as [a v r]. cbn [Tabs.tabList
    Tabs.activeFileId] in *.
  assert ((foldl Tabs.multiCloseStep (a, v) ids).1
          = filter (λ fileId, fileId ∉ ids) a) as ->;
    [|split; [done | by apply NoDup_filter]].
  revert a v Hdup. induction ids as [|id ids IH]; intros a v Hdup.
  - cbn [foldl fst]. symmetry. apply filter_all.
    by intros x _ ?%elem_of_nil.
  - cbn [foldl].
    destruct (Tabs.multiCloseStep (a, v) id) as [a' v'] eqn:Hstep.
    pose proof (multiCloseStep_NoDup a v id Hdup) as Ha'.
    rewrite Hstep in Ha'. cbn [fst] in Ha'. subst a'.
    rewrite IH by by apply NoDup_filter.
    rewrite list_filter_filter. apply list_filter_iff.
    intros x. rewrite not_elem_of_cons. tauto.
Qed.

(** X22.  Opening a tab that was not open and closing it again gives the
    tab list back as it was, and the last tab becomes the active file,
    or none if there is no tab. *)
Theorem open_then_close state id :
  id ∉ Tabs.tabList state →
  Tabs.reduceAll state [Tabs.open_tab id; Tabs.close_tab id]
  = inl {| Tabs.tabList := Tabs.tabList state;
           Tabs.activeFileId := Tabs.neighbour (Tabs.tabList state) [];
           Tabs.rest := Tabs.rest state |}.
Proof.
  intros Hid. unfold Tabs.reduceAll. cbn [foldl].
  assert (Tabs.reducer state (Tabs.open_tab id)
          = inl (Tabs.MkState (Tabs.tabList state ++ [id]) (Tabs.str id)
                   (Tabs.rest state))) as ->.
  { cbn [Tabs.reducer]. by rewrite bool_decide_eq_false_2. }
  rewrite reducer_close_tab.
  cbn [Tabs.tabList Tabs.activeFileId Tabs.rest].
  rewrite multiCloseStep_first by done. cbn [fst snd Tabs.strictEq].
  by rewrite bool_decide_eq_true_2, app_nil_r by done.
Qed.

(** X23.  Opening a tab twice is opening it once: the second
    ['open_tab'] finds the tab in the list and adds nothing. *)
Theorem open_tab_idempotent state id :
  Tabs.reduceAll state [Tabs.open_tab id; Tabs.open_tab id]
  = Tabs.reducer state (Tabs.open_tab id).
Proof.
  unfold Tabs.reduceAll. cbn [foldl].
  destruct (decide (id ∈ Tabs.tabList state)) as [Hin|Hin].
  - assert (Tabs.reducer state (Tabs.open_tab id)
            = inl (Tabs.MkState (Tabs.tabList state) (Tabs.str id)
                     (Tabs.rest state))) as ->.
    { cbn [Tabs.reducer]. by rewrite bool_decide_eq_true_2. }
    cbn [Tabs.reducer Tabs.tabList Tabs.activeFileId Tabs.rest].
    by rewrite bool_decide_eq_true_2.
  - assert (Tabs.reducer state (Tabs.open_tab id)
            = inl (Tabs.MkState (Tabs.tabList state ++ [id]) (Tabs.str id)
                     (Tabs.rest state))) as ->.
    { cbn [Tabs.reducer]. by rewrite bool_decide_eq_false_2. }
    cbn [Tabs.reducer Tabs.tabList Tabs.activeFileId Tabs.rest].
    rewrite bool_decide_eq_true_2; [done|].
    apply elem_of_app; right. by apply list_elem_of_singleton.
Qed.

End TabInvariants.

Lemma activeIsOpen_kept_witness :
  Tabs.activeIsOpen Tabs.exampleTabs
  ∧ Tabs.opensOrCloses (Tabs.close_tab (js "b")) = true
  ∧ ∃ state',
      Tabs.reducer Tabs.exampleTabs (Tabs.close_tab (js "b")) = inl state'
      ∧ Tabs.activeIsOpen state'
      ∧ Tabs.activeFileId state' ≠ Tabs.undefined
      ∧ Tabs.rest state' = Tabs.rest Tabs.exampleTabs.
Proof.
  assert (Tabs.activeIsOpen Tabs.exampleTabs) as Hopen
    by (by apply (list_elem_of_lookup_2 _ 1%nat)).
  split; [exact Hopen|]. split; [reflexivity|].
  exact (activeIsOpen_kept Tabs.exampleTabs (Tabs.close_tab (js "b"))
           Hopen eq_refl).
Defined.

Lemma multi_close_tab_filter_witness :
  NoDup (Tabs.tabList Tabs.exampleTabs)
  ∧ ∃ state',
      Tabs.reducer Tabs.exampleTabs (Tabs.multi_close_tab [js "c"; js "a"])
      = inl state'
      ∧ Tabs.tabList state'
        = filter (λ fileId, fileId ∉ [js "c"; js "a"])
            (Tabs.tabList Tabs.exampleTabs)
      ∧ NoDup (Tabs.tabList state').
Proof.
  assert (NoDup (Tabs.tabList Tabs.exampleTabs)) as Hdup.
  { repeat (apply NoDup_cons_2;
            [intros Hin; repeat (apply elem_of_cons in Hin as [[=]|Hin]);
             by apply elem_of_nil in Hin|]).
    apply NoDup_nil_2. }
  split; [exact Hdup|].
  exact (multi_close_tab_filter Tabs.exampleTabs [js "c"; js "a"] Hdup).
Defined.

Lemma open_then_close_witness :
  (js "d" ∉ Tabs.tabList Tabs.exampleTabs)
  ∧ Tabs.reduceAll Tabs.exampleTabs
      [Tabs.open_tab (js "d"); Tabs.close_tab (js "d")]
    = inl {| Tabs.tabList := Tabs.tabList Tabs.exampleTabs;
             Tabs.activeFileId :=
               Tabs.neighbour (Tabs.tabList Tabs.exampleTabs) [];
             Tabs.rest := Tabs.rest Tabs.exampleTabs |}.
Proof.
  assert (js "d" ∉ Tabs.tabList Tabs.exampleTabs) as Hid.
  { intros Hin. repeat (apply elem_of_cons in Hin as [[=]|Hin]).
    by apply elem_of_nil in Hin. }
  split; [exact Hid|].
  exact (open_then_close Tabs.exampleTabs (js "d") Hid).
Defined.

(** ** Interaction with code widgets *)

Lemma rounds_S (k : nat) :
  Interact.rounds (S k) None
  = Interact.rounds k None
    ++ [Interact.setIsInteracting; Interact.deleteIsInteracting].
Proof.
  unfold Interact.rounds. rewrite !app_nil_r.
  induction k as [|k IH]; [done|].
  change (mjoin (replicate (S (S k)) ?x)) with (x ++ mjoin (replicate (S k) x)).
  rewrite IH at 1.
  by change (mjoin (replicate (S k) ?x)) with (x ++ mjoin (replicate k x)).
Qed.

Lemma filter_pending_self (id : positive) :
  filter (λ t, t ≠ id) [id] = [].
Proof. rewrite filter_cons_False, filter_nil; [done | by intros []]. Qed.

Lemma interact_invariant_step (s : Interact.State) (e : Interact.Event)
    (k : nat) :
  Interact.timers s = option_list (Interact.interactTimeoutRef s) →
  Interact.operations s = Interact.rounds k (Interact.interactTimeoutRef s) →
  Interact.timers (Interact.step s e)
  = option_list (Interact.interactTimeoutRef (Interact.step s e))
  ∧ ∃ k', Interact.operations (Interact.step s e)
          = Interact.rounds k' (Interact.interactTimeoutRef (Interact.step s e)).
Proof.
  destruct s as [ref ts next ops]; simpl. intros -> ->.
  destruct e as [|id]; simpl.
  - unfold Interact.onInteract; simpl. destruct ref as [id|]; simpl.
    + rewrite filter_pending_self.
      split; [done|]. by exists k.
    + split; [done|]. exists k. unfold Interact.rounds.
      by rewrite app_nil_r.
  - case_bool_decide as Hin; simpl; [|split; [done | by exists k]].
    destruct ref as [id'|]; simpl in Hin; [|by apply elem_of_nil in Hin].
    apply list_elem_of_singleton in Hin as ->.
    rewrite filter_pending_self.
    split; [done|]. exists (S k). rewrite rounds_S.
    unfold Interact.rounds. by rewrite app_nil_r, <- app_assoc.
Qed.

Lemma interact_invariant (s : Interact.State) :
  Interact.reachable s →
  Interact.timers s = option_list (Interact.interactTimeoutRef s)
  ∧ ∃ k, Interact.operations s
         = Interact.rounds k (Interact.interactTimeoutRef s).
Proof.
  intros [events ->].
  induction events as [|e events IH] using rev_ind.
  - split; [done|]. by exists 0%nat.
  - unfold Interact.run in *. rewrite foldl_app. cbn [foldl].
    destruct IH as (Ht & k & Hops).
    by apply (interact_invariant_step _ _ k).
Qed.

Lemma isInteracting_rounds (k : nat) (before : option bool) :
  Interact.isInteracting (Interact.rounds k None) before
  = match k with O => before | S _ => None end.
Proof.
  induction k as [|k IH]; [done|].
  rewrite rounds_S. unfold Interact.isInteracting in *.
  by rewrite foldl_app.
Qed.

(** X24.  At every moment the timer [interactTimeoutRef] holds is the
    only one pending, and the operations submitted so far are rounds of
    one mark and one unmark, with one more mark exactly while a timer is
    pending: the document is marked as interacting exactly then, and is
    without the mark after the first round. *)
Theorem interacting_while_pending
    (s : Interact.State) (before : option bool) :
  Interact.reachable s →
  Interact.timers s = option_list (Interact.interactTimeoutRef s)
  ∧ (∃ k, Interact.operations s
          = Interact.rounds k (Interact.interactTimeoutRef s))
  ∧ Interact.isInteracting (Interact.operations s) before
    = match Interact.interactTimeoutRef s with
      | Some _ => Some true
      | None => match Interact.operations s with
                | [] => before
                | _ :: _ => None
                end
      end.
Proof.
  intros (Ht & k & Hops)%interact_invariant.
  split; [done|]. split; [by exists k|]. rewrite Hops.
  destruct (Interact.interactTimeoutRef s) as [id|].
  - unfold Interact.rounds, Interact.isInteracting. by rewrite foldl_app.
  - rewrite isInteracting_rounds. by destruct k.
Qed.

Lemma interacting_while_pending_witness :
  Interact.reachable (Interact.run Interact.initial [Interact.Interaction])
  ∧ Interact.timers (Interact.run Interact.initial [Interact.Interaction])
    = option_list
        (Interact.interactTimeoutRef
           (Interact.run Interact.initial [Interact.Interaction]))
  ∧ (∃ k,
       Interact.operations
         (Interact.run Interact.initial [Interact.Interaction])
       = Interact.rounds k
           (Interact.interactTimeoutRef
              (Interact.run Interact.initial [Interact.Interaction])))
  ∧ Interact.isInteracting
      (Interact.operations
         (Interact.run Interact.initial [Interact.Interaction])) None
    = match
        Interact.interactTimeoutRef
          (Interact.run Interact.initial [Interact.Interaction])
      with
      | Some _ => Some true
      | None =>
          match
            Interact.operations
              (Interact.run Interact.initial [Interact.Interaction])
          with
          | [] => None
          | _ :: _ => None
          end
      end.
Proof.
  assert (Interact.reachable
            (Interact.run Interact.initial [Interact.Interaction]))
    as Hreach by (by exists [Interact.Interaction]).
  split; [exact Hreach|].
  exact (interacting_while_pending _ None Hreach).
Defined.

Lemma interact_burst (s : Interact.State) (n : nat) :
  Interact.interactTimeoutRef s = None →
  Interact.timers s = [] →
  ∃ id,
    Interact.interactTimeoutRef
      (Interact.run s (replicate (S n) Interact.Interaction)) = Some id
    ∧ Interact.timers
        (Interact.run s (replicate (S n) Interact.Interaction)) = [id]
    ∧ Interact.operations
        (Interact.run s (replicate (S n) Interact.Interaction))
      = Interact.operations s ++ [Interact.setIsInteracting].
Proof.
  intros Href Ht. induction n as [|n IH].
  - destruct s as [ref ts next ops]; simpl in *; subst.
    exists next. by unfold Interact.onInteract.
  - destruct IH as (id & Href' & Ht' & Hops').
    rewrite replicate_S_end. unfold Interact.run in *.
    rewrite foldl_app. cbn [foldl].
    destruct (foldl _ s _) as [ref ts next ops]; simpl in *; subst.
    exists next. unfold Interact.onInteract; simpl.
    by rewrite filter_pending_self.
Qed.

(** X25.  However many interactions follow one another while the timer
    is pending, the document is marked once and, when the last timer
    expires, unmarked once: after a burst of one or more interactions
    from rest, one timer is pending, one mark has been submitted, and
    the expiry of that timer submits the unmark and leaves no timer. *)
Theorem interaction_burst (s : Interact.State) (n : nat) :
  Interact.reachable s →
  Interact.interactTimeoutRef s = None →
  (0 < n)%nat →
  ∃ id,
    Interact.timers (Interact.run s (replicate n Interact.Interaction))
    = [id]
    ∧ Interact.operations
        (Interact.run s (replicate n Interact.Interaction))
      = Interact.operations s ++ [Interact.setIsInteracting]
    ∧ Interact.operations
        (Interact.run s
           (replicate n Interact.Interaction ++ [Interact.Expiry id]))
      = Interact.operations s
        ++ [Interact.setIsInteracting; Interact.deleteIsInteracting]
    ∧ Interact.timers
        (Interact.run s
           (replicate n Interact.Interaction ++ [Interact.Expiry id]))
      = []
    ∧ Interact.interactTimeoutRef
        (Interact.run s
           (replicate n Interact.Interaction ++ [Interact.Expiry id]))
      = None.
Proof.
  intros (Ht & _)%interact_invariant Href Hn.
  rewrite Href in Ht. destruct n as [|n]; [lia|].
  destruct (interact_burst s n Href Ht) as (id & Href' & Ht' & Hops').
  exists id. split; [done|]. split; [done|].
  unfold Interact.run in *. rewrite foldl_app. cbn [foldl].
  destruct (foldl _ s _) as [ref ts next ops]; simpl in *; subst.
  rewrite bool_decide_eq_true_2 by (by apply list_elem_of_singleton).
  simpl. rewrite filter_pending_self.
  by rewrite <- app_assoc.
Qed.

Lemma interaction_burst_witness :
  Interact.reachable Interact.initial
  ∧ Interact.interactTimeoutRef Interact.initial = None
  ∧ (0 < 3)%nat
  ∧ ∃ id,
      Interact.timers
        (Interact.run Interact.initial (replicate 3 Interact.Interaction))
      = [id]
      ∧ Interact.operations
          (Interact.run Interact.initial (replicate 3 Interact.Interaction))
        = Interact.operations Interact.initial
          ++ [Interact.setIsInteracting]
      ∧ Interact.operations
          (Interact.run Interact.initial
             (replicate 3 Interact.Interaction ++ [Interact.Expiry id]))
        = Interact.operations Interact.initial
          ++ [Interact.setIsInteracting; Interact.deleteIsInteracting]
      ∧ Interact.timers
          (Interact.run Interact.initial
             (replicate 3 Interact.Interaction ++ [Interact.Expiry id]))
        = []
      ∧ Interact.interactTimeoutRef
          (Interact.run Interact.initial
             (replicate 3 Interact.Interaction ++ [Interact.Expiry id]))
        = None.
Proof.
  assert (Interact.reachable Interact.initial) as Hreach by (by exists []).
  assert (0 < 3)%nat as Hn by lia.
  split; [exact Hreach|]. split; [reflexivity|]. split; [exact Hn|].
  exact (interaction_burst Interact.initial 3 Hreach eq_refl Hn).
Defined.
